(** * Validation of the collector configuration (config/config.go)

    A shallow embedding of [Config.Validate], [Config.validateService],
    [ServiceTelemetry.validate] and [ServiceTelemetryLogs.validate], with the
    registries as finite maps and the pipelines' reference lists as lists.

    Go leaves the iteration order of [range] over a map unspecified, and the
    validator returns the first error it meets; the order in which each map is
    visited is therefore an explicit argument of the embedded functions. *)

From stdpp Require Import gmap strings list fin_maps.
From Stdlib Require Import ZArith.

Local Open Scope string_scope.
Local Open Scope list_scope.

(** ** Data model *)

(** Modelled from the spec: [ComponentID] is declared outside config.go; the
    spec describes it as an opaque string identifier compared by exact string
    equality, used as registry key and as cross-reference value. *)
Abbreviation ComponentID := string (only parsing).

(** [type DataType string] and its three constants. *)
Abbreviation DataType := string (only parsing).
Definition TracesDataType : DataType := "traces".
Definition MetricsDataType : DataType := "metrics".
Definition LogsDataType : DataType := "logs".

(** The [validatable] interface: a configuration value exposes [Validate() error].
    A value is represented by what its own [Validate] returns: [None] for a nil
    error, [Some msg] for an error with message [msg]. *)
Record validatable := { own_Validate : option string }.

(** Modelled from the spec: the registry types [Receivers], [Exporters],
    [Processors] and [Extensions] are declared outside config.go; the spec
    gives each as a map from ComponentID to a value exposing [Validate]. The
    values are Go interface values, so an entry may hold nil: [None] below. *)
Abbreviation registry := (gmap string (option validatable)) (only parsing).

Module Pipeline.
Record t := mk {
  Name : string;
  InputType : DataType;
  Receivers : list ComponentID;
  Processors : list ComponentID;
  Exporters : list ComponentID
}.
End Pipeline.

(** [type Pipelines map[ComponentID]*Pipeline]: the values are pointers, [None]
    is the nil pointer. *)
Abbreviation Pipelines := (gmap string (option Pipeline.t)) (only parsing).

Record ServiceTelemetryLogs := {
  Level : Z;
  Development : bool;
  Encoding : string
}.

Record ServiceTelemetry := { Logs : ServiceTelemetryLogs }.

Module Service.
Record t := mk {
  Telemetry : ServiceTelemetry;
  Extensions : list ComponentID;
  Pipelines : Pipelines
}.
End Service.

Module Config.
Record t := mk {
  Receivers : registry;
  Exporters : registry;
  Processors : registry;
  Extensions : registry;
  Service : Service.t
}.
End Config.

(** ** Errors *)

Inductive component_kind := receiver | exporter | processor | extension.

(** One constructor per error the validator builds, carrying the arguments of
    its format string. *)
Inductive error :=
  | errMissingExporters
  | errMissingReceivers
  | errMissingServicePipelines
  | InvalidComponentConfig (kind : component_kind) (id : ComponentID) (cause : string)
  | InvalidTelemetryEncoding (got : string)
  | UnknownExtensionReference (ref : ComponentID)
  | EmptyPipelineReceivers (pipeline : string)
  | UnknownReceiverReference (pipeline : string) (ref : ComponentID)
  | UnknownProcessorReference (pipeline : string) (ref : ComponentID)
  | EmptyPipelineExporters (pipeline : string)
  | UnknownExporterReference (pipeline : string) (ref : ComponentID).

(** What a call does: return nil, return an error, or panic (a method call on a
    nil interface value, a field read through a nil pointer). *)
Inductive outcome :=
  | Nil
  | Err (e : error)
  | Panic.

#[global] Instance component_kind_eq_dec : EqDecision component_kind.
Proof. solve_decision. Defined.
#[global] Instance error_eq_dec : EqDecision error.
Proof. solve_decision. Defined.
#[global] Instance outcome_eq_dec : EqDecision outcome.
Proof. solve_decision. Defined.

(** [if err := a; err != nil { return err }; k] *)
Definition and_then (a k : outcome) : outcome :=
  match a with
  | Nil => k
  | _ => a
  end.

Notation "a ;;; k" := (and_then a k) (at level 100, k at level 200, right associativity).

(** ** Iteration orders *)

(** The order in which one call visits the entries of each of the five maps. *)
Record ranges := {
  range_Receivers : list (ComponentID * option validatable);
  range_Exporters : list (ComponentID * option validatable);
  range_Processors : list (ComponentID * option validatable);
  range_Extensions : list (ComponentID * option validatable);
  range_Pipelines : list (ComponentID * option Pipeline.t)
}.

(** [o] visits every entry of every map of [cfg] exactly once. *)
Definition ranges_ok (cfg : Config.t) (o : ranges) : Prop :=
  range_Receivers o ≡ₚ map_to_list (Config.Receivers cfg) ∧
  range_Exporters o ≡ₚ map_to_list (Config.Exporters cfg) ∧
  range_Processors o ≡ₚ map_to_list (Config.Processors cfg) ∧
  range_Extensions o ≡ₚ map_to_list (Config.Extensions cfg) ∧
  range_Pipelines o ≡ₚ map_to_list (Service.Pipelines (Config.Service cfg)).

(** One admissible order, for running the validator on a concrete Config. *)
Definition default_ranges (cfg : Config.t) : ranges :=
  {| range_Receivers := map_to_list (Config.Receivers cfg);
     range_Exporters := map_to_list (Config.Exporters cfg);
     range_Processors := map_to_list (Config.Processors cfg);
     range_Extensions := map_to_list (Config.Extensions cfg);
     range_Pipelines := map_to_list (Service.Pipelines (Config.Service cfg)) |}.

(** ** The validator *)

(** [func (srvTL *ServiceTelemetryLogs) validate() error] *)
Definition ServiceTelemetryLogs_validate (srvTL : ServiceTelemetryLogs) : outcome :=
  if bool_decide (Encoding srvTL ≠ "json") && bool_decide (Encoding srvTL ≠ "console")
  then Err (InvalidTelemetryEncoding (Encoding srvTL))
  else Nil.

(** [func (srvT *ServiceTelemetry) validate() error] *)
Definition ServiceTelemetry_validate (srvT : ServiceTelemetry) : outcome :=
  ServiceTelemetryLogs_validate (Logs srvT).

(** [m[k]] on a Go map of interface values: the zero value nil when the key is
    absent. *)
Definition index (m : registry) (k : ComponentID) : option validatable :=
  default None (m !! k).

(** [for id, c := range m { if err := c.Validate(); err != nil { return ... } }]
    over the entries in the order [l]. *)
Fixpoint range_Validate (kind : component_kind)
    (l : list (ComponentID * option validatable)) : outcome :=
  match l with
  | [] => Nil
  | (id, c) :: l' =>
      match c with
      | None => Panic
      | Some v =>
          match own_Validate v with
          | Some err => Err (InvalidComponentConfig kind id err)
          | None => range_Validate kind l'
          end
      end
  end.

(** [for _, ref := range refs { if m[ref] == nil { return unknown(ref) } }] *)
Fixpoint range_refs (m : registry) (unknown : ComponentID → error)
    (refs : list ComponentID) : outcome :=
  match refs with
  | [] => Nil
  | ref :: refs' =>
      match index m ref with
      | None => Err (unknown ref)
      | Some _ => range_refs m unknown refs'
      end
  end.

(** The body of the loop over the pipelines in [validateService]. *)
Definition validatePipeline (cfg : Config.t) (pipeline : option Pipeline.t) : outcome :=
  match pipeline with
  | None => Panic
  | Some p =>
      (if bool_decide (length (Pipeline.Receivers p) = 0)
       then Err (EmptyPipelineReceivers (Pipeline.Name p)) else Nil) ;;;
      range_refs (Config.Receivers cfg) (UnknownReceiverReference (Pipeline.Name p))
        (Pipeline.Receivers p) ;;;
      range_refs (Config.Processors cfg) (UnknownProcessorReference (Pipeline.Name p))
        (Pipeline.Processors p) ;;;
      (if bool_decide (length (Pipeline.Exporters p) = 0)
       then Err (EmptyPipelineExporters (Pipeline.Name p)) else Nil) ;;;
      range_refs (Config.Exporters cfg) (UnknownExporterReference (Pipeline.Name p))
        (Pipeline.Exporters p)
  end.

(** [for _, pipeline := range cfg.Service.Pipelines { ... }] in the order [l]. *)
Fixpoint range_validatePipeline (cfg : Config.t)
    (l : list (ComponentID * option Pipeline.t)) : outcome :=
  match l with
  | [] => Nil
  | (_, pipeline) :: l' => validatePipeline cfg pipeline ;;; range_validatePipeline cfg l'
  end.

(** [func (cfg *Config) validateService() error] *)
Definition validateService (o : ranges) (cfg : Config.t) : outcome :=
  ServiceTelemetry_validate (Service.Telemetry (Config.Service cfg)) ;;;
  range_refs (Config.Extensions cfg) UnknownExtensionReference
    (Service.Extensions (Config.Service cfg)) ;;;
  if bool_decide (size (Service.Pipelines (Config.Service cfg)) = 0)
  then Err errMissingServicePipelines
  else range_validatePipeline cfg (range_Pipelines o).

(** [func (cfg *Config) Validate() error] *)
Definition Validate (o : ranges) (cfg : Config.t) : outcome :=
  if bool_decide (size (Config.Receivers cfg) = 0) then Err errMissingReceivers else
  range_Validate receiver (range_Receivers o) ;;;
  if bool_decide (size (Config.Exporters cfg) = 0) then Err errMissingExporters else
  range_Validate exporter (range_Exporters o) ;;;
  range_Validate processor (range_Processors o) ;;;
  range_Validate extension (range_Extensions o) ;;;
  validateService o cfg.

(** ** The conditions the validator checks, in the words of the spec *)

(** A registry value passes its own validation: it is a value (not nil) whose
    [Validate] returns nil. *)
Definition component_ok (c : option validatable) : Prop :=
  ∃ v, c = Some v ∧ own_Validate v = None.

(** Every configuration of the registry passes its own validation. *)
Definition registry_ok (m : registry) : Prop :=
  ∀ id c, m !! id = Some c → component_ok c.

(** The reference [ref] resolves in the registry: it exists as a key. *)
Definition resolves (m : registry) (ref : ComponentID) : Prop :=
  is_Some (m !! ref).

(** Every check that comes before the pipelines passes. *)
Definition prelude_ok (cfg : Config.t) : Prop :=
  Config.Receivers cfg ≠ ∅ ∧
  registry_ok (Config.Receivers cfg) ∧
  registry_ok (Config.Exporters cfg) ∧
  registry_ok (Config.Processors cfg) ∧
  registry_ok (Config.Extensions cfg) ∧
  Config.Exporters cfg ≠ ∅ ∧
  (Encoding (Logs (Service.Telemetry (Config.Service cfg))) = "json" ∨
   Encoding (Logs (Service.Telemetry (Config.Service cfg))) = "console") ∧
  Forall (resolves (Config.Extensions cfg)) (Service.Extensions (Config.Service cfg)).

(** A pipeline has a non-empty receivers list whose IDs all resolve, processor
    IDs that all resolve, and a non-empty exporters list whose IDs all resolve. *)
Definition pipeline_ok (cfg : Config.t) (pipeline : option Pipeline.t) : Prop :=
  ∃ p, pipeline = Some p ∧
    Pipeline.Receivers p ≠ [] ∧
    Forall (resolves (Config.Receivers cfg)) (Pipeline.Receivers p) ∧
    Forall (resolves (Config.Processors cfg)) (Pipeline.Processors p) ∧
    Pipeline.Exporters p ≠ [] ∧
    Forall (resolves (Config.Exporters cfg)) (Pipeline.Exporters p).

(** The whole invariant set of a valid Config. *)
Definition valid_config (cfg : Config.t) : Prop :=
  prelude_ok cfg ∧
  Service.Pipelines (Config.Service cfg) ≠ ∅ ∧
  ∀ k pipeline, Service.Pipelines (Config.Service cfg) !! k = Some pipeline →
    pipeline_ok cfg pipeline.

(** ** Reaching a pipeline *)

(** The loop over the pipelines gets to [p]: every pipeline it visits before
    [p] passes the checks of the loop body. *)
Definition loop_reaches (o : ranges) (cfg : Config.t) (p : Pipeline.t) : Prop :=
  ∃ pre k post,
    range_Pipelines o = pre ++ (k, Some p) :: post ∧
    Forall (λ kp, validatePipeline cfg kp.2 = Nil) pre.

(** [validateService] gets to [p]: the telemetry and service extension checks
    pass, there is a pipeline, and the loop gets to [p]. *)
Definition service_reaches (o : ranges) (cfg : Config.t) (p : Pipeline.t) : Prop :=
  ServiceTelemetry_validate (Service.Telemetry (Config.Service cfg)) = Nil ∧
  range_refs (Config.Extensions cfg) UnknownExtensionReference
    (Service.Extensions (Config.Service cfg)) = Nil ∧
  Service.Pipelines (Config.Service cfg) ≠ ∅ ∧
  loop_reaches o cfg p.

(** ** Editing a reference list *)

(** The four kinds of reference lists of a Config. *)
Inductive ref_list :=
  | ServiceExtensions
  | PipelineReceivers (k : ComponentID)
  | PipelineProcessors (k : ComponentID)
  | PipelineExporters (k : ComponentID).

(** A second copy of the ID at index [i], put at position [j] of the list. *)
Definition duplicate (i j : nat) (l : list ComponentID) : list ComponentID :=
  match l !! i with
  | Some x => take j l ++ x :: drop j l
  | None => l
  end.

Definition edit_pipeline (f : list ComponentID → list ComponentID) (w : ref_list)
    (p : Pipeline.t) : Pipeline.t :=
  match w with
  | ServiceExtensions => p
  | PipelineReceivers _ =>
      Pipeline.mk (Pipeline.Name p) (Pipeline.InputType p)
        (f (Pipeline.Receivers p)) (Pipeline.Processors p) (Pipeline.Exporters p)
  | PipelineProcessors _ =>
      Pipeline.mk (Pipeline.Name p) (Pipeline.InputType p)
        (Pipeline.Receivers p) (f (Pipeline.Processors p)) (Pipeline.Exporters p)
  | PipelineExporters _ =>
      Pipeline.mk (Pipeline.Name p) (Pipeline.InputType p)
        (Pipeline.Receivers p) (Pipeline.Processors p) (f (Pipeline.Exporters p))
  end.

(** The key of the pipeline a reference list belongs to. *)
Definition pipeline_key (w : ref_list) : option ComponentID :=
  match w with
  | ServiceExtensions => None
  | PipelineReceivers k | PipelineProcessors k | PipelineExporters k => Some k
  end.

(** The Config with [f] applied to the reference list [w], all else unchanged. *)
Definition edit_refs (f : list ComponentID → list ComponentID) (w : ref_list)
    (cfg : Config.t) : Config.t :=
  let srv := Config.Service cfg in
  Config.mk (Config.Receivers cfg) (Config.Exporters cfg) (Config.Processors cfg)
    (Config.Extensions cfg)
    (Service.mk (Service.Telemetry srv)
       (match w with
        | ServiceExtensions => f (Service.Extensions srv)
        | _ => Service.Extensions srv
        end)
       (match pipeline_key w with
        | Some k => alter (option_map (edit_pipeline f w)) k (Service.Pipelines srv)
        | None => Service.Pipelines srv
        end)).

(** The entry of pipeline [k] with [f] applied to its reference list [w]; any
    other entry unchanged. *)
Definition edit_entry (f : list ComponentID → list ComponentID) (w : ref_list)
    (k : ComponentID) (kp : ComponentID * option Pipeline.t) :
    ComponentID * option Pipeline.t :=
  (kp.1, if decide (kp.1 = k) then option_map (edit_pipeline f w) kp.2 else kp.2).

(** The same iteration orders, over the edited Config. *)
Definition edit_ranges (f : list ComponentID → list ComponentID) (w : ref_list)
    (o : ranges) : ranges :=
  {| range_Receivers := range_Receivers o;
     range_Exporters := range_Exporters o;
     range_Processors := range_Processors o;
     range_Extensions := range_Extensions o;
     range_Pipelines :=
       match pipeline_key w with
       | Some k => edit_entry f w k <$> range_Pipelines o
       | None => range_Pipelines o
       end |}.

(** The Config with the processor and extension registries emptied, and the
    references to them dropped. *)
Definition without_processors_extensions (cfg : Config.t) : Config.t :=
  let srv := Config.Service cfg in
  Config.mk (Config.Receivers cfg) (Config.Exporters cfg) ∅ ∅
    (Service.mk (Service.Telemetry srv) []
       (option_map (edit_pipeline (λ _, []) (PipelineProcessors "")) <$> Service.Pipelines srv)).

(** ** Concrete configurations *)

Definition valid_component : option validatable := Some {| own_Validate := None |}.
Definition invalid_component (msg : string) : option validatable :=
  Some {| own_Validate := Some msg |}.

Definition telemetry (enc : string) : ServiceTelemetry :=
  {| Logs := {| Level := 0; Development := false; Encoding := enc |} |}.

Definition pipeline_p1 : Pipeline.t :=
  Pipeline.mk "p1" TracesDataType ["r1"] [] ["e1"].

(** End-to-end scenario A of the spec: the receiver [r1], the exporter [e1],
    no processor, no extension, and the pipeline [p1] from [r1] to [e1]. *)
Definition scenario_A (r1 e1 : option validatable) (t : ServiceTelemetry) : Config.t :=
  Config.mk {["r1" := r1]} {["e1" := e1]} ∅ ∅
    (Service.mk t [] {["p1" := Some pipeline_p1]}).

(** End-to-end scenario C of the spec: no receiver, everything else populated. *)
Definition scenario_C : Config.t :=
  Config.mk ∅ {["e1" := valid_component]} {["b1" := valid_component]}
    {["x1" := valid_component]}
    (Service.mk (telemetry "json") ["x1"] {["p1" := Some pipeline_p1]}).

(** A Config that uses every registry: one receiver, exporter, processor and
    extension, the extension enabled and the processor in the pipeline. *)
Definition all_registries : Config.t :=
  Config.mk {["r1" := valid_component]} {["e1" := valid_component]}
    {["b1" := valid_component]} {["x1" := valid_component]}
    (Service.mk (telemetry "console") ["x1"]
       {["p1" := Some (Pipeline.mk "p1" LogsDataType ["r1"] ["b1"] ["e1"])]}).

(** A Config with no pipeline. *)
Definition no_pipelines (r1 e1 : option validatable) (enc : string)
    (exts : list ComponentID) : Config.t :=
  Config.mk {["r1" := r1]} {["e1" := e1]} ∅ ∅ (Service.mk (telemetry enc) exts ∅).

(** A Config with no exporter. *)
Definition no_exporters (r1 : option validatable) : Config.t :=
  Config.mk {["r1" := r1]} ∅ ∅ ∅
    (Service.mk (telemetry "json") [] {["p1" := Some pipeline_p1]}).

(** Scenario A with another pipeline in the place of [p1]. *)
Definition one_pipeline (p : Pipeline.t) : Config.t :=
  Config.mk {["r1" := valid_component]} {["e1" := valid_component]} ∅ ∅
    (Service.mk (telemetry "json") [] {["p1" := Some p]}).

(** A pipeline that names two receivers, neither of them configured. *)
Definition pipeline_ab : Pipeline.t :=
  Pipeline.mk "p1" TracesDataType ["a"; "b"] [] ["e1"].

(** A pipeline without receivers, and one whose receiver is not configured. *)
Definition pipeline_empty : Pipeline.t :=
  Pipeline.mk "p1" TracesDataType [] [] ["e1"].
Definition pipeline_r2 : Pipeline.t :=
  Pipeline.mk "p2" MetricsDataType ["r2"] [] ["e1"].

Definition two_pipelines : Config.t :=
  Config.mk {["r1" := valid_component]} {["e1" := valid_component]} ∅ ∅
    (Service.mk (telemetry "json") []
       {["p1" := Some pipeline_empty; "p2" := Some pipeline_r2]}).

(** The orders over [two_pipelines] that visit [p1], respectively [p2], first. *)
Definition p1_first : ranges :=
  {| range_Receivers := [("r1", valid_component)];
     range_Exporters := [("e1", valid_component)];
     range_Processors := [];
     range_Extensions := [];
     range_Pipelines := [("p1", Some pipeline_empty); ("p2", Some pipeline_r2)] |}.
Definition p2_first : ranges :=
  {| range_Receivers := [("r1", valid_component)];
     range_Exporters := [("e1", valid_component)];
     range_Processors := [];
     range_Extensions := [];
     range_Pipelines := [("p2", Some pipeline_r2); ("p1", Some pipeline_empty)] |}.

(** A Config whose registries hold the key ["n"] with a nil value, with the
    service extensions [exts] and the single pipeline [p]. *)
Definition nil_entries (exts : list ComponentID) (p : Pipeline.t) : Config.t :=
  Config.mk {["r1" := valid_component; "n" := None]}
    {["e1" := valid_component; "n" := None]}
    {["b1" := valid_component; "n" := None]}
    {["x1" := valid_component; "n" := None]}
    (Service.mk (telemetry "console") exts {["p1" := Some p]}).

(** ** Notions for the error and edge behaviour *)

(** The registry that holds the components of one kind. *)
Definition registry_of (kind : component_kind) (cfg : Config.t) : registry :=
  match kind with
  | receiver => Config.Receivers cfg
  | exporter => Config.Exporters cfg
  | processor => Config.Processors cfg
  | extension => Config.Extensions cfg
  end.

(** The checks on the four registries pass: [Validate] gets to
    [validateService]. *)
Definition components_ok (cfg : Config.t) : Prop :=
  Config.Receivers cfg ≠ ∅ ∧
  registry_ok (Config.Receivers cfg) ∧
  Config.Exporters cfg ≠ ∅ ∧
  registry_ok (Config.Exporters cfg) ∧
  registry_ok (Config.Processors cfg) ∧
  registry_ok (Config.Extensions cfg).

(** Some configuration of the registry fails its own validation. *)
Definition some_component_fails (m : registry) : Prop :=
  ∃ id v cause, m !! id = Some (Some v) ∧ own_Validate v = Some cause.

(** The errors that are not built inside a loop over a map. *)
Definition order_free (e : error) : bool :=
  match e with
  | errMissingExporters | errMissingReceivers | errMissingServicePipelines
  | InvalidTelemetryEncoding _ | UnknownExtensionReference _ => true
  | _ => false
  end.

(** The Config with the component [c] put under the key [id] of the registry
    of [kind]. *)
Definition add_component (kind : component_kind) (id : ComponentID)
    (c : option validatable) (cfg : Config.t) : Config.t :=
  match kind with
  | receiver =>
      Config.mk (<[id := c]> (Config.Receivers cfg)) (Config.Exporters cfg)
        (Config.Processors cfg) (Config.Extensions cfg) (Config.Service cfg)
  | exporter =>
      Config.mk (Config.Receivers cfg) (<[id := c]> (Config.Exporters cfg))
        (Config.Processors cfg) (Config.Extensions cfg) (Config.Service cfg)
  | processor =>
      Config.mk (Config.Receivers cfg) (Config.Exporters cfg)
        (<[id := c]> (Config.Processors cfg)) (Config.Extensions cfg) (Config.Service cfg)
  | extension =>
      Config.mk (Config.Receivers cfg) (Config.Exporters cfg)
        (Config.Processors cfg) (<[id := c]> (Config.Extensions cfg)) (Config.Service cfg)
  end.

(** The pipeline with its InputType replaced. *)
Definition retype (ty : DataType → DataType) (p : Pipeline.t) : Pipeline.t :=
  Pipeline.mk (Pipeline.Name p) (ty (Pipeline.InputType p))
    (Pipeline.Receivers p) (Pipeline.Processors p) (Pipeline.Exporters p).

(** The Config with the logs Level and Development flag replaced, and the
    InputType of every pipeline replaced. *)
Definition with_unchecked_fields (level : Z) (development : bool)
    (ty : DataType → DataType) (cfg : Config.t) : Config.t :=
  let srv := Config.Service cfg in
  Config.mk (Config.Receivers cfg) (Config.Exporters cfg) (Config.Processors cfg)
    (Config.Extensions cfg)
    (Service.mk
       {| Logs := {| Level := level; Development := development;
                     Encoding := Encoding (Logs (Service.Telemetry srv)) |} |}
       (Service.Extensions srv)
       (option_map (retype ty) <$> Service.Pipelines srv)).

(** The same iteration orders, over the Config with the InputTypes replaced. *)
Definition retype_ranges (ty : DataType → DataType) (o : ranges) : ranges :=
  {| range_Receivers := range_Receivers o;
     range_Exporters := range_Exporters o;
     range_Processors := range_Processors o;
     range_Extensions := range_Extensions o;
     range_Pipelines := prod_map id (option_map (retype ty)) <$> range_Pipelines o |}.

(** Two pipelines of which only [p2] fails a check. *)
Definition one_of_two_fails : Config.t :=
  Config.mk {["r1" := valid_component]} {["e1" := valid_component]} ∅ ∅
    (Service.mk (telemetry "json") []
       {["p1" := Some pipeline_p1; "p2" := Some pipeline_r2]}).

(** The orders over [one_of_two_fails] that visit [p2] last, respectively first. *)
Definition failing_last : ranges :=
  {| range_Receivers := [("r1", valid_component)];
     range_Exporters := [("e1", valid_component)];
     range_Processors := [];
     range_Extensions := [];
     range_Pipelines := [("p1", Some pipeline_p1); ("p2", Some pipeline_r2)] |}.
Definition failing_first : ranges :=
  {| range_Receivers := [("r1", valid_component)];
     range_Exporters := [("e1", valid_component)];
     range_Processors := [];
     range_Extensions := [];
     range_Pipelines := [("p2", Some pipeline_r2); ("p1", Some pipeline_p1)] |}.

(** ** Sequencing *)

Lemma and_then_Nil (a k : outcome) : (a ;;; k) = Nil ↔ a = Nil ∧ k = Nil.
Proof. destruct a; simpl; intuition congruence. Qed.

Lemma and_then_Err (a k : outcome) (e : error) : a = Err e → (a ;;; k) = Err e.
Proof. by intros ->. Qed.

Lemma and_then_assoc (a b c : outcome) : ((a ;;; b) ;;; c) = (a ;;; b ;;; c).
Proof. by destruct a. Qed.

(** ** The loops *)

Lemma range_Validate_Nil (kind : component_kind) (l : list (ComponentID * option validatable)) :
  range_Validate kind l = Nil ↔ Forall (λ ic, component_ok ic.2) l.
Proof.
  induction l as [|[id c] l IH]; simpl.
  - split; [constructor | done].
  - rewrite Forall_cons, <- IH. unfold component_ok. simpl.
    destruct c as [[[err|]]|]; simpl.
    + split; [done | by intros [(v & [= <-] & Hv) _]].
    + split; [intros H; split; [eauto | done] | by intros [_ H]].
    + split; [done | by intros [(v & Hv & _) _]].
Qed.

Lemma registry_ok_Forall (m : registry) (l : list (ComponentID * option validatable)) :
  l ≡ₚ map_to_list m → (Forall (λ ic, component_ok ic.2) l ↔ registry_ok m).
Proof.
  intros Hl. rewrite Hl, Forall_forall. unfold registry_ok. split.
  - intros H id c Hc. by apply (H (id, c)), elem_of_map_to_list.
  - intros H [id c] Hc. by apply (H id), elem_of_map_to_list.
Qed.

Lemma range_Validate_registry (kind : component_kind) (m : registry)
    (l : list (ComponentID * option validatable)) :
  l ≡ₚ map_to_list m → (range_Validate kind l = Nil ↔ registry_ok m).
Proof. intros Hl. by rewrite range_Validate_Nil, registry_ok_Forall. Qed.

Lemma range_refs_Nil (m : registry) (unknown : ComponentID → error) (refs : list ComponentID) :
  range_refs m unknown refs = Nil ↔ Forall (λ r, is_Some (index m r)) refs.
Proof.
  induction refs as [|r refs IH]; simpl.
  - split; [constructor | done].
  - rewrite Forall_cons, <- IH. destruct (index m r) as [v|].
    + split; [intros H; split; [eauto | done] | by intros [_ H]].
    + split; [done | by intros [[v Hv] _]].
Qed.

Lemma range_refs_app (m : registry) (unknown : ComponentID → error) (l1 l2 : list ComponentID) :
  range_refs m unknown (l1 ++ l2) = (range_refs m unknown l1 ;;; range_refs m unknown l2).
Proof.
  induction l1 as [|r l1 IH]; simpl; [done|]. by destruct (index m r).
Qed.

Lemma range_refs_first (m : registry) (unknown : ComponentID → error)
    (l1 l2 : list ComponentID) (r : ComponentID) :
  Forall (λ r, is_Some (index m r)) l1 → index m r = None →
  range_refs m unknown (l1 ++ r :: l2) = Err (unknown r).
Proof.
  intros H1 Hr. rewrite range_refs_app.
  rewrite (proj2 (range_refs_Nil m unknown l1) H1). simpl. by rewrite Hr.
Qed.

Lemma index_resolves (m : registry) (r : ComponentID) :
  registry_ok m → (is_Some (index m r) ↔ resolves m r).
Proof.
  intros Hm. unfold index, resolves. destruct (m !! r) as [c|] eqn:Hc; simpl.
  - destruct (Hm r c Hc) as (v & -> & _). split; eauto.
  - split; intros [? ?]; done.
Qed.

Lemma index_absent (m : registry) (r : ComponentID) : m !! r = None → index m r = None.
Proof. unfold index. by intros ->. Qed.

Lemma index_nil_entry (m : registry) (r : ComponentID) : m !! r = Some None → index m r = None.
Proof. unfold index. by intros ->. Qed.

Lemma Forall_index_resolves (m : registry) (refs : list ComponentID) :
  registry_ok m → (Forall (λ r, is_Some (index m r)) refs ↔ Forall (resolves m) refs).
Proof.
  intros Hm. apply Forall_proper; [|done]. intros r. by apply index_resolves.
Qed.

Lemma range_validatePipeline_Nil (cfg : Config.t) (l : list (ComponentID * option Pipeline.t)) :
  range_validatePipeline cfg l = Nil ↔ Forall (λ kp, validatePipeline cfg kp.2 = Nil) l.
Proof.
  induction l as [|[k p] l IH]; simpl.
  - split; [constructor | done].
  - by rewrite Forall_cons, and_then_Nil, IH.
Qed.

Lemma range_validatePipeline_app (cfg : Config.t) (l1 l2 : list (ComponentID * option Pipeline.t)) :
  range_validatePipeline cfg (l1 ++ l2)
  = (range_validatePipeline cfg l1 ;;; range_validatePipeline cfg l2).
Proof.
  induction l1 as [|[k p] l1 IH]; simpl; [done|]. by rewrite IH, and_then_assoc.
Qed.

(** When the pipelines visited first pass, the loop's result is the one of the
    body on the next pipeline, unless that one passes too. *)
Lemma range_validatePipeline_reach (cfg : Config.t)
    (pre post : list (ComponentID * option Pipeline.t)) (k : ComponentID)
    (pipeline : option Pipeline.t) :
  Forall (λ kp, validatePipeline cfg kp.2 = Nil) pre →
  range_validatePipeline cfg (pre ++ (k, pipeline) :: post)
  = (validatePipeline cfg pipeline ;;; range_validatePipeline cfg post).
Proof.
  intros Hpre. rewrite range_validatePipeline_app.
  by rewrite (proj2 (range_validatePipeline_Nil cfg pre) Hpre).
Qed.

(** ** One pipeline *)

Lemma length_0_bool_decide {A} (l : list A) :
  bool_decide (length l = 0) = bool_decide (l = []).
Proof. apply bool_decide_ext. by destruct l. Qed.

Lemma validatePipeline_Nil_index (cfg : Config.t) (p : Pipeline.t) :
  validatePipeline cfg (Some p) = Nil ↔
    Pipeline.Receivers p ≠ [] ∧
    Forall (λ r, is_Some (index (Config.Receivers cfg) r)) (Pipeline.Receivers p) ∧
    Forall (λ r, is_Some (index (Config.Processors cfg) r)) (Pipeline.Processors p) ∧
    Pipeline.Exporters p ≠ [] ∧
    Forall (λ r, is_Some (index (Config.Exporters cfg) r)) (Pipeline.Exporters p).
Proof.
  unfold validatePipeline. rewrite !and_then_Nil, !range_refs_Nil.
  destruct (Pipeline.Receivers p) as [|r rs], (Pipeline.Exporters p) as [|e es];
    simpl; intuition congruence.
Qed.

Lemma validatePipeline_Nil (cfg : Config.t) (pipeline : option Pipeline.t) :
  registry_ok (Config.Receivers cfg) → registry_ok (Config.Processors cfg) →
  registry_ok (Config.Exporters cfg) →
  (validatePipeline cfg pipeline = Nil ↔ pipeline_ok cfg pipeline).
Proof.
  intros HR HP HE. unfold pipeline_ok. destruct pipeline as [p|].
  - rewrite validatePipeline_Nil_index, !Forall_index_resolves by done.
    split; [eauto 10 | by intros (? & [= <-] & ?)].
  - split; [done | by intros (? & ? & ?)].
Qed.

(** ** Telemetry *)

Lemma ServiceTelemetryLogs_validate_Nil (srvTL : ServiceTelemetryLogs) :
  ServiceTelemetryLogs_validate srvTL = Nil ↔
    Encoding srvTL = "json" ∨ Encoding srvTL = "console".
Proof.
  unfold ServiceTelemetryLogs_validate.
  destruct (decide (Encoding srvTL = "json")) as [->|Hj]; [by split; eauto|].
  destruct (decide (Encoding srvTL = "console")) as [->|Hc]; [by split; eauto|].
  rewrite !bool_decide_eq_true_2 by done. simpl. intuition congruence.
Qed.

(** ** The stages of [Validate] *)

Lemma size_0_bool_decide {A} (m : gmap string A) :
  bool_decide (size m = 0) = bool_decide (m = ∅).
Proof. apply bool_decide_ext, map_size_empty_iff. Qed.

(** With every earlier check passing, [Validate] is the pipelines stage. *)
Lemma Validate_prelude (o : ranges) (cfg : Config.t) :
  ranges_ok cfg o → prelude_ok cfg →
  Validate o cfg =
    if bool_decide (Service.Pipelines (Config.Service cfg) = ∅)
    then Err errMissingServicePipelines
    else range_validatePipeline cfg (range_Pipelines o).
Proof.
  intros (HoR & HoE & HoP & HoX & _) (HR & HRok & HEok & HPok & HXok & HE & Henc & Hext).
  unfold Validate, validateService, ServiceTelemetry_validate.
  rewrite !size_0_bool_decide, !bool_decide_eq_false_2 by done.
  rewrite (proj2 (range_Validate_registry receiver _ _ HoR) HRok).
  rewrite (proj2 (range_Validate_registry exporter _ _ HoE) HEok).
  rewrite (proj2 (range_Validate_registry processor _ _ HoP) HPok).
  rewrite (proj2 (range_Validate_registry extension _ _ HoX) HXok).
  rewrite (proj2 (ServiceTelemetryLogs_validate_Nil _) Henc).
  apply Forall_index_resolves in Hext; [|done].
  by rewrite (proj2 (range_refs_Nil _ _ _) Hext).
Qed.

(** A successful [Validate] passed every check before the pipelines. *)
Lemma Validate_Nil_prelude (o : ranges) (cfg : Config.t) :
  ranges_ok cfg o → Validate o cfg = Nil → prelude_ok cfg.
Proof.
  intros (HoR & HoE & HoP & HoX & _). unfold Validate, validateService, ServiceTelemetry_validate.
  rewrite !size_0_bool_decide.
  case_bool_decide as HR; [done|]. rewrite and_then_Nil. intros [HRok H].
  case_bool_decide as HE; [done|]. revert H. rewrite !and_then_Nil.
  intros (HEok & HPok & HXok & Henc & Hext & _).
  apply (range_Validate_registry _ _ _ HoR) in HRok.
  apply (range_Validate_registry _ _ _ HoE) in HEok.
  apply (range_Validate_registry _ _ _ HoP) in HPok.
  apply (range_Validate_registry _ _ _ HoX) in HXok.
  apply ServiceTelemetryLogs_validate_Nil in Henc.
  apply range_refs_Nil, Forall_index_resolves in Hext; [|done].
  by repeat split.
Qed.

(** ** Iteration orders and the maps *)

Lemma ranges_ok_default (cfg : Config.t) : ranges_ok cfg (default_ranges cfg).
Proof. by repeat split. Qed.

Lemma range_Pipelines_Forall (o : ranges) (cfg : Config.t) (Q : option Pipeline.t → Prop) :
  ranges_ok cfg o →
  (Forall (λ kp, Q kp.2) (range_Pipelines o) ↔
   ∀ k pipeline, Service.Pipelines (Config.Service cfg) !! k = Some pipeline → Q pipeline).
Proof.
  intros (_ & _ & _ & _ & Ho). rewrite Ho, Forall_forall. split.
  - intros H k p Hp. by apply (H (k, p)), elem_of_map_to_list.
  - intros H [k p] Hp. by apply (H k), elem_of_map_to_list.
Qed.

Lemma loop_reaches_nonempty (o : ranges) (cfg : Config.t) (p : Pipeline.t) :
  ranges_ok cfg o → loop_reaches o cfg p → Service.Pipelines (Config.Service cfg) ≠ ∅.
Proof.
  intros (_ & _ & _ & _ & Ho) (pre & k & post & Hl & _) Hempty.
  rewrite Hempty, map_to_list_empty, Hl in Ho.
  apply Permutation_nil_r in Ho. by destruct pre.
Qed.

(** ** Success and the invariant set *)

Lemma valid_Validate_Nil (o : ranges) (cfg : Config.t) :
  ranges_ok cfg o → valid_config cfg → Validate o cfg = Nil.
Proof.
  intros Ho (Hpre & Hne & Hall). rewrite Validate_prelude by done.
  rewrite bool_decide_eq_false_2 by done.
  destruct Hpre as (_ & HR & HE & HP & _).
  apply range_validatePipeline_Nil.
  apply (proj2 (range_Pipelines_Forall o cfg (λ p, validatePipeline cfg p = Nil) Ho)).
  intros k p Hp. apply validatePipeline_Nil; eauto.
Qed.

Lemma Validate_Nil_valid (o : ranges) (cfg : Config.t) :
  ranges_ok cfg o → Validate o cfg = Nil → valid_config cfg.
Proof.
  intros Ho H. pose proof (Validate_Nil_prelude o cfg Ho H) as Hpre.
  rewrite Validate_prelude in H by done. case_bool_decide as Hne; [done|].
  split; [done|]. split; [done|].
  destruct Hpre as (_ & HR & HE & HP & _).
  apply range_validatePipeline_Nil in H.
  pose proof (proj1 (range_Pipelines_Forall o cfg
    (λ p, validatePipeline cfg p = Nil) Ho) H) as Hall.
  intros k p Hp. apply validatePipeline_Nil; eauto.
Qed.

(** When the loop gets to a pipeline that fails a check, [Validate] returns
    the error of that check. *)
Lemma Validate_reach (o : ranges) (cfg : Config.t) (p : Pipeline.t) (e : error) :
  ranges_ok cfg o → prelude_ok cfg → loop_reaches o cfg p →
  validatePipeline cfg (Some p) = Err e → Validate o cfg = Err e.
Proof.
  intros Ho Hpre Hreach He. rewrite Validate_prelude by done.
  rewrite bool_decide_eq_false_2 by eauto using loop_reaches_nonempty.
  destruct Hreach as (pre & k & post & -> & Hpass).
  rewrite range_validatePipeline_reach by done. by apply and_then_Err.
Qed.

(** ** The claims *)

(** C1. [Validate] returns nil if and only if the whole invariant set holds:
    the Receivers registry is non-empty; every receiver, exporter, processor
    and extension configuration passes its own [Validate]; the Exporters
    registry is non-empty; the logs encoding is "json" or "console"; every ID
    of Service.Extensions resolves in Extensions; Service.Pipelines is
    non-empty; and every pipeline has a non-empty receivers list resolving in
    Receivers, processors resolving in Processors, and a non-empty exporters
    list resolving in Exporters. This holds whatever the order in which the
    maps are iterated. *)
Theorem Validate_Nil_iff_valid_config (o : ranges) (cfg : Config.t) :
  ranges_ok cfg o → (Validate o cfg = Nil ↔ valid_config cfg).
Proof.
  intros Ho. split.
  - by apply Validate_Nil_valid.
  - by apply valid_Validate_Nil.
Qed.

Lemma Validate_Nil_iff_valid_config_witness :
  ranges_ok (scenario_A valid_component valid_component (telemetry "console"))
    (default_ranges (scenario_A valid_component valid_component (telemetry "console"))) ∧
  (Validate (default_ranges (scenario_A valid_component valid_component (telemetry "console")))
     (scenario_A valid_component valid_component (telemetry "console")) = Nil ↔
   valid_config (scenario_A valid_component valid_component (telemetry "console"))).
Proof.
  assert (ranges_ok (scenario_A valid_component valid_component (telemetry "console"))
    (default_ranges (scenario_A valid_component valid_component (telemetry "console"))))
    as Ho by (repeat split; reflexivity).
  split; [exact Ho|].
  exact (Validate_Nil_iff_valid_config _ _ Ho).
Defined.

(** C2. A Config whose Receivers registry is empty is rejected with
    MissingReceivers, whatever else it contains and whatever the iteration
    order: the check comes first. *)
Theorem empty_Receivers_errMissingReceivers (o : ranges) (cfg : Config.t) :
  Config.Receivers cfg = ∅ → Validate o cfg = Err errMissingReceivers.
Proof.
  intros H. unfold Validate. by rewrite size_0_bool_decide, bool_decide_eq_true_2.
Qed.

Lemma empty_Receivers_errMissingReceivers_witness :
  Config.Receivers scenario_C = ∅ ∧
  Validate (default_ranges scenario_C) scenario_C = Err errMissingReceivers.
Proof.
  split; [reflexivity|].
  apply (empty_Receivers_errMissingReceivers (default_ranges scenario_C) scenario_C).
  reflexivity.
Defined.

(** C3, as stated, fails: with no exporter and a receiver whose own
    [Validate] fails, the error is the receiver's, not MissingExporters. *)
Lemma empty_Exporters_counterexample :
  ranges_ok (no_exporters (invalid_component "bad"))
    (default_ranges (no_exporters (invalid_component "bad"))) ∧
  Config.Exporters (no_exporters (invalid_component "bad")) = ∅ ∧
  Config.Receivers (no_exporters (invalid_component "bad")) ≠ ∅ ∧
  Validate (default_ranges (no_exporters (invalid_component "bad")))
    (no_exporters (invalid_component "bad"))
  = Err (InvalidComponentConfig receiver "r1" "bad") ∧
  Validate (default_ranges (no_exporters (invalid_component "bad")))
    (no_exporters (invalid_component "bad"))
  ≠ Err errMissingExporters.
Proof.
  split; [by repeat split|]. split; [reflexivity|].
  split; [apply insert_non_empty|]. split; [by vm_compute|].
  by vm_compute.
Qed.

(** C3, amended. A Config whose Exporters registry is empty, whose Receivers
    registry is non-empty and whose receivers all pass their own [Validate] is
    rejected with MissingExporters. *)
Theorem empty_Exporters_errMissingExporters (o : ranges) (cfg : Config.t) :
  ranges_ok cfg o →
  Config.Exporters cfg = ∅ →
  Config.Receivers cfg ≠ ∅ →
  registry_ok (Config.Receivers cfg) →
  Validate o cfg = Err errMissingExporters.
Proof.
  intros (HoR & _) HE HR HRok. unfold Validate.
  rewrite !size_0_bool_decide, bool_decide_eq_false_2 by done.
  rewrite (proj2 (range_Validate_registry receiver _ _ HoR) HRok). simpl.
  by rewrite bool_decide_eq_true_2.
Qed.

Lemma empty_Exporters_errMissingExporters_witness :
  Validate (default_ranges (no_exporters valid_component)) (no_exporters valid_component)
  = Err errMissingExporters.
Proof.
  apply (empty_Exporters_errMissingExporters
           (default_ranges (no_exporters valid_component)) (no_exporters valid_component)).
  - repeat split; reflexivity.
  - reflexivity.
  - apply insert_non_empty.
  - intros id c. unfold no_exporters, valid_component. simpl.
    intros [_ <-]%lookup_singleton_Some. eexists. split; reflexivity.
Defined.

(** C4, as stated, fails: with receivers and exporters but no pipeline, an
    exporter whose own [Validate] fails, a logs encoding other than "json" and
    "console", or a service extension that is not configured is reported
    instead of MissingPipelines. *)
Lemma empty_Pipelines_counterexample :
  (Config.Receivers (no_pipelines valid_component (invalid_component "bad") "json" []) ≠ ∅ ∧
   Config.Exporters (no_pipelines valid_component (invalid_component "bad") "json" []) ≠ ∅ ∧
   Service.Pipelines (Config.Service
     (no_pipelines valid_component (invalid_component "bad") "json" [])) = ∅ ∧
   Validate (default_ranges (no_pipelines valid_component (invalid_component "bad") "json" []))
     (no_pipelines valid_component (invalid_component "bad") "json" [])
   = Err (InvalidComponentConfig exporter "e1" "bad")) ∧
  (Config.Receivers (no_pipelines valid_component valid_component "yaml" []) ≠ ∅ ∧
   Config.Exporters (no_pipelines valid_component valid_component "yaml" []) ≠ ∅ ∧
   Service.Pipelines (Config.Service
     (no_pipelines valid_component valid_component "yaml" [])) = ∅ ∧
   Validate (default_ranges (no_pipelines valid_component valid_component "yaml" []))
     (no_pipelines valid_component valid_component "yaml" [])
   = Err (InvalidTelemetryEncoding "yaml")) ∧
  (Config.Receivers (no_pipelines valid_component valid_component "json" ["x1"]) ≠ ∅ ∧
   Config.Exporters (no_pipelines valid_component valid_component "json" ["x1"]) ≠ ∅ ∧
   Service.Pipelines (Config.Service
     (no_pipelines valid_component valid_component "json" ["x1"])) = ∅ ∧
   Validate (default_ranges (no_pipelines valid_component valid_component "json" ["x1"]))
     (no_pipelines valid_component valid_component "json" ["x1"])
   = Err (UnknownExtensionReference "x1")).
Proof.
  repeat split; try apply insert_non_empty; by vm_compute.
Qed.

(** C4, amended. A Config that passes every check before the pipelines
    (non-empty Receivers and Exporters, every component passing its own
    [Validate], a logs encoding "json" or "console", every service extension
    resolving) and whose Service.Pipelines is empty is rejected with
    MissingPipelines. *)
Theorem empty_Pipelines_errMissingServicePipelines (o : ranges) (cfg : Config.t) :
  ranges_ok cfg o →
  prelude_ok cfg →
  Service.Pipelines (Config.Service cfg) = ∅ →
  Validate o cfg = Err errMissingServicePipelines.
Proof.
  intros Ho Hpre Hempty. rewrite Validate_prelude by done.
  by rewrite bool_decide_eq_true_2.
Qed.

Lemma registry_ok_singleton (id : ComponentID) :
  registry_ok {[id := valid_component]}.
Proof.
  intros id' c [_ <-]%lookup_singleton_Some. eexists. split; reflexivity.
Qed.

Lemma registry_ok_empty : registry_ok ∅.
Proof. intros id c. by rewrite lookup_empty. Qed.

Lemma empty_Pipelines_errMissingServicePipelines_witness :
  Validate (default_ranges (no_pipelines valid_component valid_component "json" []))
    (no_pipelines valid_component valid_component "json" [])
  = Err errMissingServicePipelines.
Proof.
  apply (empty_Pipelines_errMissingServicePipelines
           (default_ranges (no_pipelines valid_component valid_component "json" []))
           (no_pipelines valid_component valid_component "json" [])).
  - repeat split; reflexivity.
  - unfold prelude_ok, no_pipelines. simpl.
    repeat split; auto using registry_ok_singleton, registry_ok_empty;
      apply insert_non_empty.
  - reflexivity.
Defined.

(** C5, as stated, fails. A pipeline naming a receiver absent from Receivers
    does not always make [Validate] report that ID: with an empty Receivers
    registry the error is MissingReceivers; of two absent IDs only the first of
    the list is reported; and a pipeline visited earlier may fail first. *)
Lemma UnknownReceiverReference_counterexample :
  (Service.Pipelines (Config.Service scenario_C) !! "p1" = Some (Some pipeline_p1) ∧
   "r1" ∈ Pipeline.Receivers pipeline_p1 ∧
   Config.Receivers scenario_C !! "r1" = None ∧
   Validate (default_ranges scenario_C) scenario_C = Err errMissingReceivers) ∧
  (Service.Pipelines (Config.Service (one_pipeline pipeline_ab)) !! "p1"
     = Some (Some pipeline_ab) ∧
   "b" ∈ Pipeline.Receivers pipeline_ab ∧
   Config.Receivers (one_pipeline pipeline_ab) !! "b" = None ∧
   Validate (default_ranges (one_pipeline pipeline_ab)) (one_pipeline pipeline_ab)
   = Err (UnknownReceiverReference "p1" "a")) ∧
  (Service.Pipelines (Config.Service two_pipelines) !! "p2" = Some (Some pipeline_r2) ∧
   "r2" ∈ Pipeline.Receivers pipeline_r2 ∧
   Config.Receivers two_pipelines !! "r2" = None ∧
   ranges_ok two_pipelines p1_first ∧
   Validate p1_first two_pipelines = Err (EmptyPipelineReceivers "p1")).
Proof.
  repeat split; try (by vm_compute); try (vm_compute; set_solver).
Qed.

(** C5, amended. Once every check before the pipelines passes and the loop
    gets to a pipeline [p] (the pipelines visited before it pass), if [p] names
    a receiver ID absent from the Receivers registry, then [Validate] reports
    UnknownReceiverReference with the name of [p] and the first such ID of its
    receivers list, whatever the processors and exporters of [p] are: within a
    pipeline the receiver references are checked before the processor
    references and the exporter checks. *)
Theorem UnknownReceiverReference_first (o : ranges) (cfg : Config.t) (p : Pipeline.t)
    (l1 l2 : list ComponentID) (r : ComponentID) :
  ranges_ok cfg o →
  prelude_ok cfg →
  loop_reaches o cfg p →
  Pipeline.Receivers p = l1 ++ r :: l2 →
  Forall (resolves (Config.Receivers cfg)) l1 →
  Config.Receivers cfg !! r = None →
  Validate o cfg = Err (UnknownReceiverReference (Pipeline.Name p) r).
Proof.
  intros Ho Hpre Hreach Hl Hl1 Hr.
  apply (Validate_reach o cfg p); [done..|].
  unfold validatePipeline. rewrite Hl, length_0_bool_decide.
  rewrite bool_decide_eq_false_2 by (by destruct l1). simpl.
  rewrite range_refs_first; [done | | by apply index_absent].
  destruct Hpre as (_ & HR & _). by apply Forall_index_resolves.
Qed.

Lemma prelude_ok_one_pipeline (p : Pipeline.t) : prelude_ok (one_pipeline p).
Proof.
  unfold prelude_ok, one_pipeline. simpl.
  repeat split; auto using registry_ok_singleton, registry_ok_empty;
    apply insert_non_empty.
Qed.

Lemma UnknownReceiverReference_first_witness :
  Validate (default_ranges (one_pipeline (Pipeline.mk "p1" LogsDataType ["r1"; "a"; "b"] ["c"] [])))
    (one_pipeline (Pipeline.mk "p1" LogsDataType ["r1"; "a"; "b"] ["c"] []))
  = Err (UnknownReceiverReference "p1" "a").
Proof.
  apply (UnknownReceiverReference_first
           (default_ranges (one_pipeline (Pipeline.mk "p1" LogsDataType ["r1"; "a"; "b"] ["c"] [])))
           (one_pipeline (Pipeline.mk "p1" LogsDataType ["r1"; "a"; "b"] ["c"] []))
           (Pipeline.mk "p1" LogsDataType ["r1"; "a"; "b"] ["c"] [])
           ["r1"] ["b"] "a").
  - repeat split; reflexivity.
  - apply prelude_ok_one_pipeline.
  - exists [], "p1", []. split; [by vm_compute | constructor].
  - reflexivity.
  - constructor; [|constructor]. eexists. by vm_compute.
  - by vm_compute.
Defined.

(** C6. The telemetry logs validation succeeds exactly when Encoding is "json"
    or "console"; otherwise it fails with InvalidTelemetryEncoding carrying the
    offending value, in particular for the empty string, "text" and "JSON". *)
Theorem ServiceTelemetryLogs_validate_spec (srvTL : ServiceTelemetryLogs) :
  (ServiceTelemetryLogs_validate srvTL = Nil ↔
     Encoding srvTL = "json" ∨ Encoding srvTL = "console") ∧
  (ServiceTelemetryLogs_validate srvTL = Nil ∨
   ServiceTelemetryLogs_validate srvTL = Err (InvalidTelemetryEncoding (Encoding srvTL))) ∧
  ServiceTelemetry_validate {| Logs := srvTL |} = ServiceTelemetryLogs_validate srvTL ∧
  ServiceTelemetryLogs_validate
    {| Level := Level srvTL; Development := Development srvTL; Encoding := "" |}
  = Err (InvalidTelemetryEncoding "") ∧
  ServiceTelemetryLogs_validate
    {| Level := Level srvTL; Development := Development srvTL; Encoding := "text" |}
  = Err (InvalidTelemetryEncoding "text") ∧
  ServiceTelemetryLogs_validate
    {| Level := Level srvTL; Development := Development srvTL; Encoding := "JSON" |}
  = Err (InvalidTelemetryEncoding "JSON").
Proof.
  split; [apply ServiceTelemetryLogs_validate_Nil|].
  split; [|by repeat split].
  unfold ServiceTelemetryLogs_validate.
  destruct (bool_decide (Encoding srvTL ≠ "json") && bool_decide (Encoding srvTL ≠ "console"));
    [by right | by left].
Qed.

(** ** Scenario A, and registries that may be empty *)

Lemma registry_ok_singleton_component (id : ComponentID) (c : option validatable) :
  component_ok c → registry_ok {[id := c]}.
Proof. by intros Hc id' c' [_ <-]%lookup_singleton_Some. Qed.

Lemma valid_config_scenario_A (r1 e1 : option validatable) (t : ServiceTelemetry) :
  component_ok r1 → component_ok e1 →
  Encoding (Logs t) = "json" ∨ Encoding (Logs t) = "console" →
  valid_config (scenario_A r1 e1 t).
Proof.
  intros Hr He Henc. unfold valid_config, prelude_ok, scenario_A. simpl.
  repeat split;
    auto using registry_ok_singleton_component, registry_ok_empty;
    try apply insert_non_empty.
  intros k pipeline [_ <-]%lookup_singleton_Some.
  exists pipeline_p1. unfold resolves. simpl.
  repeat split; try done; repeat constructor; by rewrite lookup_singleton_eq.
Qed.

Lemma valid_config_without_processors_extensions (cfg : Config.t) :
  valid_config cfg → valid_config (without_processors_extensions cfg).
Proof.
  intros ((HR & HRok & HEok & _ & _ & HE & Henc & _) & Hne & Hall).
  unfold valid_config, prelude_ok, without_processors_extensions. simpl.
  repeat split; auto using registry_ok_empty.
  - by rewrite fmap_empty_iff.
  - intros k pipeline. rewrite lookup_fmap.
    destruct (Service.Pipelines (Config.Service cfg) !! k) as [q|] eqn:Hq; [|done].
    intros [= <-].
    destruct (Hall k q Hq) as (p & -> & Hr1 & Hr2 & _ & He1 & He2).
    eexists. split; [reflexivity|]. simpl. by repeat split.
Qed.

(** C7. Scenario A (the receiver r1, the exporter e1, no processor, no
    extension, the pipeline p1 from r1 to e1), with components that pass their
    own validation and a valid logs encoding, passes [Validate]. And empty
    Processors and Extensions registries are no cause of failure: a Config that
    passes still does after both registries are emptied and the references to
    them dropped. *)
Theorem scenario_A_Validate_Nil (o : ranges) (r1 e1 : option validatable)
    (t : ServiceTelemetry) :
  component_ok r1 →
  component_ok e1 →
  Encoding (Logs t) = "json" ∨ Encoding (Logs t) = "console" →
  ranges_ok (scenario_A r1 e1 t) o →
  Config.Processors (scenario_A r1 e1 t) = ∅ ∧
  Config.Extensions (scenario_A r1 e1 t) = ∅ ∧
  Validate o (scenario_A r1 e1 t) = Nil ∧
  ∀ cfg o1 o2,
    ranges_ok cfg o1 → Validate o1 cfg = Nil →
    ranges_ok (without_processors_extensions cfg) o2 →
    Config.Processors (without_processors_extensions cfg) = ∅ ∧
    Config.Extensions (without_processors_extensions cfg) = ∅ ∧
    Validate o2 (without_processors_extensions cfg) = Nil.
Proof.
  intros Hr He Henc Ho. repeat split.
  - apply valid_Validate_Nil; [done|]. by apply valid_config_scenario_A.
  - apply valid_Validate_Nil; [done|].
    apply valid_config_without_processors_extensions.
    by apply (Validate_Nil_valid o1).
Qed.

Lemma scenario_A_Validate_Nil_witness :
  Validate (default_ranges (scenario_A valid_component valid_component (telemetry "json")))
    (scenario_A valid_component valid_component (telemetry "json")) = Nil ∧
  Validate (default_ranges all_registries) all_registries = Nil ∧
  Config.Processors (without_processors_extensions all_registries) = ∅ ∧
  Config.Extensions (without_processors_extensions all_registries) = ∅ ∧
  Validate (default_ranges (without_processors_extensions all_registries))
    (without_processors_extensions all_registries) = Nil.
Proof.
  assert (component_ok valid_component) as Hc by (eexists; split; reflexivity).
  assert (ranges_ok (scenario_A valid_component valid_component (telemetry "json"))
            (default_ranges (scenario_A valid_component valid_component (telemetry "json"))))
    as Ho by (repeat split; reflexivity).
  destruct (scenario_A_Validate_Nil
              (default_ranges (scenario_A valid_component valid_component (telemetry "json")))
              valid_component valid_component (telemetry "json")
              Hc Hc (or_introl eq_refl) Ho) as (_ & _ & HA & Hwithout).
  split; [exact HA|]. split; [by vm_compute|].
  apply (Hwithout all_registries (default_ranges all_registries)
           (default_ranges (without_processors_extensions all_registries))).
  - repeat split; reflexivity.
  - by vm_compute.
  - repeat split; reflexivity.
Defined.

(** ** Iteration order and the result *)

(** C8, as stated, fails: the maps are ranged over in an unspecified order, and
    two runs on the same Config that visit its pipelines in different orders
    return errors of different kinds. *)
Lemma Validate_order_counterexample :
  ranges_ok two_pipelines p1_first ∧
  ranges_ok two_pipelines p2_first ∧
  Validate p1_first two_pipelines = Err (EmptyPipelineReceivers "p1") ∧
  Validate p2_first two_pipelines = Err (UnknownReceiverReference "p2" "r2") ∧
  Validate p1_first two_pipelines ≠ Validate p2_first two_pipelines.
Proof.
  assert (map_to_list (Service.Pipelines (Config.Service two_pipelines))
          = [("p1", Some pipeline_empty); ("p2", Some pipeline_r2)]) as Hl
    by (by vm_compute).
  split; [repeat split; try (by vm_compute); by rewrite Hl|].
  split; [repeat split; try (by vm_compute); rewrite Hl; apply perm_swap|].
  repeat split; by vm_compute.
Qed.

(** C8, amended. Two calls of [Validate] on the same Config agree on success:
    it returns nil under one iteration order of the maps if and only if it does
    under every other; a failing Config fails in every call, though the error
    may differ from call to call. *)
Theorem Validate_Nil_order_independent (o1 o2 : ranges) (cfg : Config.t) :
  ranges_ok cfg o1 → ranges_ok cfg o2 →
  (Validate o1 cfg = Nil ↔ Validate o2 cfg = Nil).
Proof.
  intros Ho1 Ho2. split; intros H.
  - by apply valid_Validate_Nil, (Validate_Nil_valid o1).
  - by apply valid_Validate_Nil, (Validate_Nil_valid o2).
Qed.

Lemma Validate_Nil_order_independent_witness :
  Validate p1_first two_pipelines = Nil ↔ Validate p2_first two_pipelines = Nil.
Proof.
  apply (Validate_Nil_order_independent p1_first p2_first two_pipelines).
  - repeat split; by vm_compute.
  - repeat split; try (by vm_compute). vm_compute. apply perm_swap.
Defined.

(** ** Nil entries of a registry *)

Lemma validateService_reach (o : ranges) (cfg : Config.t) (p : Pipeline.t) (e : error) :
  service_reaches o cfg p →
  validatePipeline cfg (Some p) = Err e → validateService o cfg = Err e.
Proof.
  intros (HT & HX & Hne & pre & k & post & Hl & Hpass) He.
  unfold validateService. rewrite HT, HX, size_0_bool_decide. simpl.
  rewrite bool_decide_eq_false_2, Hl by done.
  rewrite range_validatePipeline_reach by done. by apply and_then_Err.
Qed.

Lemma index_delete_nil_entry (m : registry) (ref r : ComponentID) :
  m !! ref = Some None → index (delete ref m) r = index m r.
Proof.
  intros Hnil. unfold index. destruct (decide (r = ref)) as [->|Hne].
  - by rewrite lookup_delete_eq, Hnil.
  - by rewrite lookup_delete_ne.
Qed.

Lemma range_refs_delete_nil_entry (m : registry) (unknown : ComponentID → error)
    (ref : ComponentID) (refs : list ComponentID) :
  m !! ref = Some None → range_refs (delete ref m) unknown refs = range_refs m unknown refs.
Proof.
  intros Hnil. induction refs as [|r refs IH]; simpl; [done|].
  by rewrite index_delete_nil_entry, IH.
Qed.

Lemma range_Validate_cases (kind : component_kind)
    (l : list (ComponentID * option validatable)) :
  range_Validate kind l = Nil ∨ range_Validate kind l = Panic ∨
  ∃ id cause, range_Validate kind l = Err (InvalidComponentConfig kind id cause).
Proof.
  induction l as [|[id [[[cause|]]|]] l IH]; simpl; eauto.
Qed.

Lemma range_Validate_nil_entry (kind : component_kind) (m : gmap string (option validatable))
    (l : list (ComponentID * option validatable)) (ref : ComponentID) :
  l ≡ₚ map_to_list m → m !! ref = Some None → range_Validate kind l ≠ Nil.
Proof.
  intros Hl Hnil H. apply (range_Validate_registry kind m l Hl) in H.
  by destruct (H ref None Hnil) as (v & ? & _).
Qed.

(** Through [Validate] the cross-reference checks never see a nil entry: the
    loops that call [Validate] on every registry value come first, and end the
    call with a panic or an earlier error. *)
Lemma nil_entry_Validate (o : ranges) (cfg : Config.t) (ref : ComponentID) :
  ranges_ok cfg o →
  Config.Receivers cfg !! ref = Some None ∨ Config.Exporters cfg !! ref = Some None ∨
  Config.Processors cfg !! ref = Some None ∨ Config.Extensions cfg !! ref = Some None →
  Validate o cfg = Panic ∨ Validate o cfg = Err errMissingReceivers ∨
  Validate o cfg = Err errMissingExporters ∨
  ∃ kind id cause, Validate o cfg = Err (InvalidComponentConfig kind id cause).
Proof.
  intros (HoR & HoE & HoP & HoX & _) Hnil. unfold Validate.
  case_bool_decide; [by auto|].
  destruct (range_Validate_cases receiver (range_Receivers o)) as [HR|[HR|(id & c & HR)]];
    rewrite HR; simpl; [|by auto|by eauto 10].
  case_bool_decide; [by auto|].
  destruct (range_Validate_cases exporter (range_Exporters o)) as [HE|[HE|(id & c & HE)]];
    rewrite HE; simpl; [|by auto|by eauto 10].
  destruct (range_Validate_cases processor (range_Processors o)) as [HP|[HP|(id & c & HP)]];
    rewrite HP; simpl; [|by auto|by eauto 10].
  destruct (range_Validate_cases extension (range_Extensions o)) as [HX|[HX|(id & c & HX)]];
    rewrite HX; simpl; [|by auto|by eauto 10].
  destruct Hnil as [Hnil|[Hnil|[Hnil|Hnil]]].
  - by destruct (range_Validate_nil_entry receiver _ _ ref HoR Hnil).
  - by destruct (range_Validate_nil_entry exporter _ _ ref HoE Hnil).
  - by destruct (range_Validate_nil_entry processor _ _ ref HoP Hnil).
  - by destruct (range_Validate_nil_entry extension _ _ ref HoX Hnil).
Qed.

(** C9. In each cross-reference check of [validateService] the looked-up value
    is compared against nil, so a key that is present with a nil value is
    treated as a key that is absent: the check gives the same result as on the
    registry without that key, and a reference to it, once the check gets to
    it, fails with the Unknown...Reference error of that check (service
    extensions, pipeline receivers, pipeline processors, pipeline exporters). *)
Theorem nil_entry_unknown_reference (o : ranges) (cfg : Config.t) (p : Pipeline.t)
    (ref : ComponentID) (l1 l2 : list ComponentID) :
  (∀ (m : gmap string (option validatable)) unknown refs,
     m !! ref = Some None →
     index m ref = None ∧
     range_refs m unknown refs = range_refs (delete ref m) unknown refs) ∧
  (Config.Extensions cfg !! ref = Some None →
   ServiceTelemetry_validate (Service.Telemetry (Config.Service cfg)) = Nil →
   Service.Extensions (Config.Service cfg) = l1 ++ ref :: l2 →
   Forall (λ r, is_Some (index (Config.Extensions cfg) r)) l1 →
   validateService o cfg = Err (UnknownExtensionReference ref)) ∧
  (Config.Receivers cfg !! ref = Some None →
   service_reaches o cfg p →
   Pipeline.Receivers p = l1 ++ ref :: l2 →
   Forall (λ r, is_Some (index (Config.Receivers cfg) r)) l1 →
   validateService o cfg = Err (UnknownReceiverReference (Pipeline.Name p) ref)) ∧
  (Config.Processors cfg !! ref = Some None →
   service_reaches o cfg p →
   Pipeline.Receivers p ≠ [] →
   Forall (λ r, is_Some (index (Config.Receivers cfg) r)) (Pipeline.Receivers p) →
   Pipeline.Processors p = l1 ++ ref :: l2 →
   Forall (λ r, is_Some (index (Config.Processors cfg) r)) l1 →
   validateService o cfg = Err (UnknownProcessorReference (Pipeline.Name p) ref)) ∧
  (Config.Exporters cfg !! ref = Some None →
   service_reaches o cfg p →
   Pipeline.Receivers p ≠ [] →
   Forall (λ r, is_Some (index (Config.Receivers cfg) r)) (Pipeline.Receivers p) →
   Forall (λ r, is_Some (index (Config.Processors cfg) r)) (Pipeline.Processors p) →
   Pipeline.Exporters p = l1 ++ ref :: l2 →
   Forall (λ r, is_Some (index (Config.Exporters cfg) r)) l1 →
   validateService o cfg = Err (UnknownExporterReference (Pipeline.Name p) ref)).
Proof.
  split; [|split; [|split; [|split]]].
  - intros m unknown refs Hnil. split; [by apply index_nil_entry|].
    by rewrite range_refs_delete_nil_entry.
  - intros Hnil HT Hl Hl1. unfold validateService. rewrite HT, Hl. simpl.
    rewrite range_refs_first; [done..|]. by apply index_nil_entry.
  - intros Hnil Hreach Hl Hl1. apply (validateService_reach o cfg p); [done|].
    unfold validatePipeline. rewrite Hl, length_0_bool_decide.
    rewrite bool_decide_eq_false_2 by (by destruct l1). simpl.
    rewrite range_refs_first; [done..|]. by apply index_nil_entry.
  - intros Hnil Hreach Hne HR Hl Hl1. apply (validateService_reach o cfg p); [done|].
    unfold validatePipeline. rewrite length_0_bool_decide.
    rewrite bool_decide_eq_false_2 by done. simpl.
    rewrite (proj2 (range_refs_Nil _ _ _) HR), Hl. simpl.
    rewrite range_refs_first; [done..|]. by apply index_nil_entry.
  - intros Hnil Hreach Hne HR HP Hl Hl1. apply (validateService_reach o cfg p); [done|].
    unfold validatePipeline. rewrite !length_0_bool_decide.
    rewrite bool_decide_eq_false_2 by done. simpl.
    rewrite (proj2 (range_refs_Nil _ _ _) HR), (proj2 (range_refs_Nil _ _ _) HP), Hl.
    simpl. rewrite bool_decide_eq_false_2 by (by destruct l1). simpl.
    rewrite range_refs_first; [done..|]. by apply index_nil_entry.
Qed.

Ltac concrete_service_reaches :=
  split; [by vm_compute|];
  split; [by vm_compute|];
  split; [apply insert_non_empty|];
  exists [], "p1", []; split; [by vm_compute | constructor].

Lemma nil_entry_unknown_reference_witness :
  (Config.Extensions (nil_entries ["x1"; "n"] pipeline_p1) !! "n" = Some None ∧
   validateService (default_ranges (nil_entries ["x1"; "n"] pipeline_p1))
     (nil_entries ["x1"; "n"] pipeline_p1)
   = Err (UnknownExtensionReference "n")) ∧
  (Config.Receivers
     (nil_entries [] (Pipeline.mk "p1" TracesDataType ["r1"; "n"] [] ["e1"])) !! "n"
   = Some None ∧
   validateService
     (default_ranges (nil_entries [] (Pipeline.mk "p1" TracesDataType ["r1"; "n"] [] ["e1"])))
     (nil_entries [] (Pipeline.mk "p1" TracesDataType ["r1"; "n"] [] ["e1"]))
   = Err (UnknownReceiverReference "p1" "n")) ∧
  (Config.Processors
     (nil_entries [] (Pipeline.mk "p1" TracesDataType ["r1"] ["b1"; "n"] ["e1"])) !! "n"
   = Some None ∧
   validateService
     (default_ranges (nil_entries [] (Pipeline.mk "p1" TracesDataType ["r1"] ["b1"; "n"] ["e1"])))
     (nil_entries [] (Pipeline.mk "p1" TracesDataType ["r1"] ["b1"; "n"] ["e1"]))
   = Err (UnknownProcessorReference "p1" "n")) ∧
  (Config.Exporters
     (nil_entries [] (Pipeline.mk "p1" TracesDataType ["r1"] [] ["e1"; "n"])) !! "n"
   = Some None ∧
   validateService
     (default_ranges (nil_entries [] (Pipeline.mk "p1" TracesDataType ["r1"] [] ["e1"; "n"])))
     (nil_entries [] (Pipeline.mk "p1" TracesDataType ["r1"] [] ["e1"; "n"]))
   = Err (UnknownExporterReference "p1" "n")).
Proof.
  split; [|split; [|split]]; (split; [by vm_compute|]).
  - apply (proj1 (proj2 (nil_entry_unknown_reference
             (default_ranges (nil_entries ["x1"; "n"] pipeline_p1))
             (nil_entries ["x1"; "n"] pipeline_p1) pipeline_p1 "n" ["x1"] []))).
    + by vm_compute.
    + by vm_compute.
    + reflexivity.
    + constructor; [|constructor]. eexists. by vm_compute.
  - apply (proj1 (proj2 (proj2 (nil_entry_unknown_reference
             (default_ranges (nil_entries [] (Pipeline.mk "p1" TracesDataType ["r1"; "n"] [] ["e1"])))
             (nil_entries [] (Pipeline.mk "p1" TracesDataType ["r1"; "n"] [] ["e1"]))
             (Pipeline.mk "p1" TracesDataType ["r1"; "n"] [] ["e1"]) "n" ["r1"] [])))).
    + by vm_compute.
    + concrete_service_reaches.
    + reflexivity.
    + constructor; [|constructor]. eexists. by vm_compute.
  - apply (proj1 (proj2 (proj2 (proj2 (nil_entry_unknown_reference
             (default_ranges (nil_entries [] (Pipeline.mk "p1" TracesDataType ["r1"] ["b1"; "n"] ["e1"])))
             (nil_entries [] (Pipeline.mk "p1" TracesDataType ["r1"] ["b1"; "n"] ["e1"]))
             (Pipeline.mk "p1" TracesDataType ["r1"] ["b1"; "n"] ["e1"]) "n" ["b1"] []))))).
    + by vm_compute.
    + concrete_service_reaches.
    + done.
    + constructor; [|constructor]. eexists. by vm_compute.
    + reflexivity.
    + constructor; [|constructor]. eexists. by vm_compute.
  - apply (proj2 (proj2 (proj2 (proj2 (nil_entry_unknown_reference
             (default_ranges (nil_entries [] (Pipeline.mk "p1" TracesDataType ["r1"] [] ["e1"; "n"])))
             (nil_entries [] (Pipeline.mk "p1" TracesDataType ["r1"] [] ["e1"; "n"]))
             (Pipeline.mk "p1" TracesDataType ["r1"] [] ["e1"; "n"]) "n" ["e1"] []))))).
    + by vm_compute.
    + concrete_service_reaches.
    + done.
    + constructor; [|constructor]. eexists. by vm_compute.
    + constructor.
    + reflexivity.
    + constructor; [|constructor]. eexists. by vm_compute.
Defined.

(** ** Edits of a reference list *)

Lemma alter_empty_iff {A} (g : A → A) (k : ComponentID) (m : gmap string A) :
  alter g k m = ∅ ↔ m = ∅.
Proof.
  rewrite !map_empty. split; intros H i.
  - specialize (H i). by rewrite lookup_alter_None in H.
  - by rewrite lookup_alter_None.
Qed.

Lemma map_to_list_alter_edit_entry (f : list ComponentID → list ComponentID) (w : ref_list)
    (k : ComponentID) (m : gmap string (option Pipeline.t)) :
  map_to_list (alter (option_map (edit_pipeline f w)) k m)
  ≡ₚ edit_entry f w k <$> map_to_list m.
Proof.
  apply NoDup_Permutation.
  - apply NoDup_map_to_list.
  - apply (NoDup_fmap_1 fst). rewrite <- list_fmap_compose.
    rewrite (list_fmap_ext _ fst (map_to_list m)) by done.
    apply NoDup_fst_map_to_list.
  - intros [i v]. rewrite elem_of_map_to_list, lookup_alter_Some, list_elem_of_fmap.
    split.
    + intros [(<- & x & Hx & ->)|(Hne & Hv)].
      * exists (k, x). split; [|by apply elem_of_map_to_list].
        unfold edit_entry. simpl. by rewrite decide_True.
      * exists (i, v). split; [|by apply elem_of_map_to_list].
        unfold edit_entry. simpl. by rewrite decide_False.
    + intros ([i' x] & Heq & Hx%elem_of_map_to_list).
      unfold edit_entry in Heq. simpl in Heq. destruct (decide (i' = k)) as [->|Hne].
      * injection Heq as -> ->. left. eauto.
      * injection Heq as -> ->. right. eauto.
Qed.

Lemma ranges_ok_edit (f : list ComponentID → list ComponentID) (w : ref_list)
    (o : ranges) (cfg : Config.t) :
  ranges_ok cfg o → ranges_ok (edit_refs f w cfg) (edit_ranges f w o).
Proof.
  intros (HR & HE & HP & HX & Hpl). repeat split; try done.
  unfold edit_refs, edit_ranges. simpl. destruct (pipeline_key w) as [k|]; [|done].
  by rewrite map_to_list_alter_edit_entry, Hpl.
Qed.

Lemma Validate_Nil_stages (o : ranges) (cfg : Config.t) :
  Validate o cfg = Nil ↔
    Config.Receivers cfg ≠ ∅ ∧
    range_Validate receiver (range_Receivers o) = Nil ∧
    Config.Exporters cfg ≠ ∅ ∧
    range_Validate exporter (range_Exporters o) = Nil ∧
    range_Validate processor (range_Processors o) = Nil ∧
    range_Validate extension (range_Extensions o) = Nil ∧
    ServiceTelemetry_validate (Service.Telemetry (Config.Service cfg)) = Nil ∧
    range_refs (Config.Extensions cfg) UnknownExtensionReference
      (Service.Extensions (Config.Service cfg)) = Nil ∧
    Service.Pipelines (Config.Service cfg) ≠ ∅ ∧
    Forall (λ kp, validatePipeline cfg kp.2 = Nil) (range_Pipelines o).
Proof.
  unfold Validate, validateService. rewrite !size_0_bool_decide.
  rewrite <- range_validatePipeline_Nil.
  repeat case_bool_decide; rewrite ?and_then_Nil; intuition congruence.
Qed.

Lemma validatePipeline_edit_refs (g : list ComponentID → list ComponentID) (w : ref_list)
    (cfg : Config.t) (pipeline : option Pipeline.t) :
  validatePipeline (edit_refs g w cfg) pipeline = validatePipeline cfg pipeline.
Proof. by destruct pipeline. Qed.

Lemma range_validatePipeline_edit_refs (g : list ComponentID → list ComponentID)
    (w : ref_list) (cfg : Config.t) (l : list (ComponentID * option Pipeline.t)) :
  range_validatePipeline (edit_refs g w cfg) l = range_validatePipeline cfg l.
Proof.
  induction l as [|[i pl] l IH]; simpl; [done|].
  by rewrite validatePipeline_edit_refs, IH.
Qed.

Section edit_keeps_result.
Variable f : list ComponentID → list ComponentID.
Hypothesis f_nil : ∀ l, f l = [] ↔ l = [].
Hypothesis f_refs : ∀ (m : gmap string (option validatable)) unknown l,
  range_refs m unknown (f l) = range_refs m unknown l.

Lemma f_length_0 (l : list ComponentID) :
  bool_decide (length (f l) = 0) = bool_decide (length l = 0).
Proof. rewrite !length_0_bool_decide. apply bool_decide_ext, f_nil. Qed.

Lemma validatePipeline_edit_pipeline (w : ref_list) (cfg : Config.t) (p : Pipeline.t) :
  validatePipeline cfg (Some (edit_pipeline f w p)) = validatePipeline cfg (Some p).
Proof.
  destruct w; unfold validatePipeline; simpl; by rewrite ?f_length_0, ?f_refs.
Qed.

Lemma validatePipeline_edit_entry (w : ref_list) (k : ComponentID) (cfg : Config.t)
    (kp : ComponentID * option Pipeline.t) :
  validatePipeline cfg (edit_entry f w k kp).2 = validatePipeline cfg kp.2.
Proof.
  destruct kp as [i [p|]]; unfold edit_entry; simpl; case_decide; simpl; try done.
  apply validatePipeline_edit_pipeline.
Qed.

Lemma range_validatePipeline_edit_entry (w : ref_list) (k : ComponentID) (cfg : Config.t)
    (l : list (ComponentID * option Pipeline.t)) :
  range_validatePipeline cfg (edit_entry f w k <$> l) = range_validatePipeline cfg l.
Proof.
  induction l as [|kp l IH]; [done|].
  rewrite fmap_cons. pose proof (validatePipeline_edit_entry w k cfg kp) as Hkp.
  destruct kp as [i pl], (edit_entry f w k (i, pl)) as [i' pl'] eqn:Heq.
  simpl in *. by rewrite Hkp, IH.
Qed.

Lemma Validate_edit (w : ref_list) (o : ranges) (cfg : Config.t) :
  Validate (edit_ranges f w o) (edit_refs f w cfg) = Validate o cfg.
Proof.
  assert (range_refs (Config.Extensions cfg) UnknownExtensionReference
            (Service.Extensions (Config.Service (edit_refs f w cfg)))
          = range_refs (Config.Extensions cfg) UnknownExtensionReference
              (Service.Extensions (Config.Service cfg))) as Hext.
  { destruct w; simpl; by rewrite ?f_refs. }
  assert (bool_decide (Service.Pipelines (Config.Service (edit_refs f w cfg)) = ∅)
          = bool_decide (Service.Pipelines (Config.Service cfg) = ∅)) as Hempty.
  { simpl. destruct (pipeline_key w) as [k|]; [|done].
    apply bool_decide_ext, alter_empty_iff. }
  assert (range_validatePipeline (edit_refs f w cfg) (range_Pipelines (edit_ranges f w o))
          = range_validatePipeline cfg (range_Pipelines o)) as Hloop.
  { rewrite range_validatePipeline_edit_refs. simpl.
    destruct (pipeline_key w) as [k|]; [|done].
    apply range_validatePipeline_edit_entry. }
  unfold Validate, validateService. rewrite !size_0_bool_decide.
  change (Config.Receivers (edit_refs f w cfg)) with (Config.Receivers cfg).
  change (Config.Exporters (edit_refs f w cfg)) with (Config.Exporters cfg).
  change (Config.Extensions (edit_refs f w cfg)) with (Config.Extensions cfg).
  change (Service.Telemetry (Config.Service (edit_refs f w cfg)))
    with (Service.Telemetry (Config.Service cfg)).
  change (range_Receivers (edit_ranges f w o)) with (range_Receivers o).
  change (range_Exporters (edit_ranges f w o)) with (range_Exporters o).
  change (range_Processors (edit_ranges f w o)) with (range_Processors o).
  change (range_Extensions (edit_ranges f w o)) with (range_Extensions o).
  by rewrite Hext, Hempty, Hloop.
Qed.

End edit_keeps_result.
Section edit_keeps_verdict.
Variable f : list ComponentID → list ComponentID.
Hypothesis f_nil : ∀ l, f l = [] ↔ l = [].
Hypothesis f_refs_Nil : ∀ (m : gmap string (option validatable)) unknown l,
  range_refs m unknown (f l) = Nil ↔ range_refs m unknown l = Nil.

Lemma f_Forall_index (m : gmap string (option validatable)) (l : list ComponentID) :
  Forall (λ r, is_Some (index m r)) (f l) ↔ Forall (λ r, is_Some (index m r)) l.
Proof. by rewrite <- !(range_refs_Nil m UnknownExtensionReference), f_refs_Nil. Qed.

Lemma validatePipeline_edit_pipeline_Nil (w : ref_list) (cfg : Config.t) (p : Pipeline.t) :
  validatePipeline cfg (Some (edit_pipeline f w p)) = Nil ↔
  validatePipeline cfg (Some p) = Nil.
Proof.
  rewrite !validatePipeline_Nil_index.
  destruct w; simpl; by rewrite ?f_Forall_index, ?f_nil.
Qed.

Lemma validatePipeline_edit_entry_Nil (w : ref_list) (k : ComponentID) (cfg : Config.t)
    (kp : ComponentID * option Pipeline.t) :
  validatePipeline cfg (edit_entry f w k kp).2 = Nil ↔ validatePipeline cfg kp.2 = Nil.
Proof.
  destruct kp as [i [p|]]; unfold edit_entry; simpl; case_decide; simpl; try done.
  apply validatePipeline_edit_pipeline_Nil.
Qed.

Lemma Validate_edit_Nil (w : ref_list) (o : ranges) (cfg : Config.t) :
  Validate (edit_ranges f w o) (edit_refs f w cfg) = Nil ↔ Validate o cfg = Nil.
Proof.
  assert (range_refs (Config.Extensions cfg) UnknownExtensionReference
            (Service.Extensions (Config.Service (edit_refs f w cfg))) = Nil ↔
          range_refs (Config.Extensions cfg) UnknownExtensionReference
            (Service.Extensions (Config.Service cfg)) = Nil) as Hext.
  { destruct w; simpl; by rewrite ?f_refs_Nil. }
  assert (Service.Pipelines (Config.Service (edit_refs f w cfg)) ≠ ∅ ↔
          Service.Pipelines (Config.Service cfg) ≠ ∅) as Hempty.
  { simpl. destruct (pipeline_key w) as [k|]; [|done]. by rewrite alter_empty_iff. }
  assert (Forall (λ kp, validatePipeline (edit_refs f w cfg) kp.2 = Nil)
            (range_Pipelines (edit_ranges f w o)) ↔
          Forall (λ kp, validatePipeline cfg kp.2 = Nil) (range_Pipelines o)) as Hloop.
  { simpl. destruct (pipeline_key w) as [k|].
    - rewrite Forall_fmap. apply Forall_iff. intros kp. simpl.
      rewrite validatePipeline_edit_refs. apply validatePipeline_edit_entry_Nil.
    - apply Forall_iff. intros kp. by rewrite validatePipeline_edit_refs. }
  rewrite !Validate_Nil_stages, Hext, Hempty, Hloop. done.
Qed.

End edit_keeps_verdict.

(** ** Duplicated references *)

Lemma duplicate_nil (i j : nat) (l : list ComponentID) : duplicate i j l = [] ↔ l = [].
Proof.
  unfold duplicate. destruct (l !! i) as [x|] eqn:Hx; [|done]. split.
  - intros H. apply app_eq_nil in H as [_ H]. done.
  - intros ->. done.
Qed.

Lemma range_refs_duplicate_Nil (i j : nat) (m : gmap string (option validatable))
    (unknown : ComponentID → error) (l : list ComponentID) :
  range_refs m unknown (duplicate i j l) = Nil ↔ range_refs m unknown l = Nil.
Proof.
  rewrite !range_refs_Nil. unfold duplicate.
  destruct (l !! i) as [x|] eqn:Hx; [|done].
  split.
  - rewrite Forall_app, Forall_cons. intros (H1 & _ & H2).
    rewrite <- (take_drop j l). by apply Forall_app.
  - intros H. pose proof (Forall_lookup_1 _ _ _ _ H Hx) as Hix.
    rewrite <- (take_drop j l) in H. apply Forall_app in H as [H1 H2].
    rewrite Forall_app, Forall_cons. done.
Qed.

Lemma range_refs_duplicate_later (i j : nat) (m : gmap string (option validatable))
    (unknown : ComponentID → error) (l : list ComponentID) :
  i < j → range_refs m unknown (duplicate i j l) = range_refs m unknown l.
Proof.
  intros Hij. unfold duplicate. destruct (l !! i) as [x|] eqn:Hx; [|done].
  transitivity (range_refs m unknown (take j l ++ drop j l)); [|by rewrite take_drop].
  rewrite !range_refs_app.
  destruct (range_refs m unknown (take j l)) eqn:Ht; [|done..]. simpl.
  apply range_refs_Nil in Ht.
  assert (take j l !! i = Some x) as Hi by (by rewrite lookup_take_lt).
  destruct (Forall_lookup_1 _ _ _ _ Ht Hi) as [v ->]. done.
Qed.

(** C10, as stated, fails on the error that is reported: in a list with two
    unresolved IDs, a copy of the second put before the first changes the ID
    that the error names. *)
Lemma duplicate_counterexample :
  Pipeline.Receivers pipeline_ab = ["a"; "b"] ∧
  edit_refs (duplicate 1 0) (PipelineReceivers "p1") (one_pipeline pipeline_ab)
  = one_pipeline (Pipeline.mk "p1" TracesDataType ["b"; "a"; "b"] [] ["e1"]) ∧
  ranges_ok (one_pipeline pipeline_ab) (default_ranges (one_pipeline pipeline_ab)) ∧
  ranges_ok (one_pipeline (Pipeline.mk "p1" TracesDataType ["b"; "a"; "b"] [] ["e1"]))
    (default_ranges (one_pipeline (Pipeline.mk "p1" TracesDataType ["b"; "a"; "b"] [] ["e1"]))) ∧
  Validate (default_ranges (one_pipeline pipeline_ab)) (one_pipeline pipeline_ab)
  = Err (UnknownReceiverReference "p1" "a") ∧
  Validate (default_ranges (one_pipeline (Pipeline.mk "p1" TracesDataType ["b"; "a"; "b"] [] ["e1"])))
    (one_pipeline (Pipeline.mk "p1" TracesDataType ["b"; "a"; "b"] [] ["e1"]))
  = Err (UnknownReceiverReference "p1" "b").
Proof.
  split; [reflexivity|]. split.
  { by vm_compute. }
  repeat split; by vm_compute.
Qed.

(** C10, amended. A second copy of an ID of Service.Extensions, or of the
    receivers, processors or exporters list of a pipeline, never changes
    whether [Validate] succeeds, under any iteration order; and it leaves the
    whole result unchanged, error included, when the copy comes after the
    occurrence it copies. *)
Theorem duplicate_reference (o : ranges) (cfg : Config.t) (w : ref_list) (i j : nat) :
  ranges_ok cfg o →
  ranges_ok (edit_refs (duplicate i j) w cfg) (edit_ranges (duplicate i j) w o) ∧
  (∀ o', ranges_ok (edit_refs (duplicate i j) w cfg) o' →
     (Validate o' (edit_refs (duplicate i j) w cfg) = Nil ↔ Validate o cfg = Nil)) ∧
  (i < j →
   Validate (edit_ranges (duplicate i j) w o) (edit_refs (duplicate i j) w cfg)
   = Validate o cfg).
Proof.
  intros Ho. pose proof (ranges_ok_edit (duplicate i j) w o cfg Ho) as Ho'.
  split; [done|]. split.
  - intros o' Ho''.
    rewrite <- (Validate_edit_Nil (duplicate i j) (duplicate_nil i j)
                  (range_refs_duplicate_Nil i j) w o cfg).
    split; intros H.
    + by apply valid_Validate_Nil, (Validate_Nil_valid o').
    + by apply valid_Validate_Nil, (Validate_Nil_valid (edit_ranges (duplicate i j) w o)).
  - intros Hij. apply Validate_edit.
    + apply duplicate_nil.
    + intros m unknown l. by apply range_refs_duplicate_later.
Qed.

Lemma duplicate_reference_witness :
  Pipeline.Receivers
    (edit_pipeline (duplicate 0 2) (PipelineReceivers "p1") pipeline_ab) = ["a"; "b"; "a"] ∧
  Validate
    (edit_ranges (duplicate 0 2) (PipelineReceivers "p1")
       (default_ranges (one_pipeline pipeline_ab)))
    (edit_refs (duplicate 0 2) (PipelineReceivers "p1") (one_pipeline pipeline_ab))
  = Validate (default_ranges (one_pipeline pipeline_ab)) (one_pipeline pipeline_ab).
Proof.
  split; [reflexivity|].
  apply (duplicate_reference (default_ranges (one_pipeline pipeline_ab))
           (one_pipeline pipeline_ab) (PipelineReceivers "p1") 0 2).
  - repeat split; reflexivity.
  - lia.
Defined.

(** ** Which error, and when *)

Lemma and_then_Err_iff (a k : outcome) (e : error) :
  (a ;;; k) = Err e ↔ a = Err e ∨ (a = Nil ∧ k = Err e).
Proof. destruct a; simpl; intuition congruence. Qed.


Lemma range_Validate_Err (kind : component_kind)
    (l : list (ComponentID * option validatable)) (e : error) :
  range_Validate kind l = Err e →
  ∃ id v cause, e = InvalidComponentConfig kind id cause ∧
    (id, Some v) ∈ l ∧ own_Validate v = Some cause.
Proof.
  induction l as [|[id [[[cause|]]|]] l IH]; simpl; intros H; try done.
  - injection H as <-. exists id, {| own_Validate := Some cause |}, cause.
    split; [done|]. split; [apply list_elem_of_here | done].
  - destruct (IH H) as (id' & v & cause & -> & Hin & Hv).
    exists id', v, cause. split; [done|]. split; [by apply list_elem_of_further | done].
Qed.

Lemma range_Validate_Panic (kind : component_kind)
    (l : list (ComponentID * option validatable)) :
  range_Validate kind l = Panic → ∃ id, (id, None) ∈ l.
Proof.
  induction l as [|[id [[[cause|]]|]] l IH]; simpl; intros H; try done.
  - destruct (IH H) as [id' Hin]. exists id'. by apply list_elem_of_further.
  - exists id. apply list_elem_of_here.
Qed.

Lemma range_refs_Err (m : gmap string (option validatable)) (unknown : ComponentID → error)
    (refs : list ComponentID) (e : error) :
  range_refs m unknown refs = Err e ↔
  ∃ l1 r l2, refs = l1 ++ r :: l2 ∧ Forall (λ r, is_Some (index m r)) l1 ∧
    index m r = None ∧ e = unknown r.
Proof.
  split.
  - induction refs as [|r refs IH]; simpl; [done|].
    destruct (index m r) as [v|] eqn:Hr.
    + intros H. destruct (IH H) as (l1 & r' & l2 & -> & Hl1 & Hr' & ->).
      exists (r :: l1), r', l2. split; [done|]. split; [|done].
      constructor; [by rewrite Hr | done].
    + intros [= <-]. exists [], r, refs. by repeat split.
  - intros (l1 & r & l2 & -> & Hl1 & Hr & ->). by apply range_refs_first.
Qed.


Lemma ServiceTelemetryLogs_validate_Err (srvTL : ServiceTelemetryLogs) (e : error) :
  ServiceTelemetryLogs_validate srvTL = Err e ↔
  e = InvalidTelemetryEncoding (Encoding srvTL) ∧
  Encoding srvTL ≠ "json" ∧ Encoding srvTL ≠ "console".
Proof.
  unfold ServiceTelemetryLogs_validate.
  repeat case_bool_decide; simpl; intuition congruence.
Qed.


Lemma components_prelude_ok (cfg : Config.t) :
  prelude_ok cfg ↔
  components_ok cfg ∧
  (Encoding (Logs (Service.Telemetry (Config.Service cfg))) = "json" ∨
   Encoding (Logs (Service.Telemetry (Config.Service cfg))) = "console") ∧
  Forall (resolves (Config.Extensions cfg)) (Service.Extensions (Config.Service cfg)).
Proof. unfold prelude_ok, components_ok. tauto. Qed.

(** With the registries passing their checks, [Validate] is [validateService]. *)
Lemma Validate_components (o : ranges) (cfg : Config.t) :
  ranges_ok cfg o → components_ok cfg → Validate o cfg = validateService o cfg.
Proof.
  intros (HoR & HoE & HoP & HoX & _) (HR & HRok & HE & HEok & HPok & HXok).
  unfold Validate. rewrite !size_0_bool_decide, !bool_decide_eq_false_2 by done.
  rewrite (proj2 (range_Validate_registry receiver _ _ HoR) HRok).
  rewrite (proj2 (range_Validate_registry exporter _ _ HoE) HEok).
  rewrite (proj2 (range_Validate_registry processor _ _ HoP) HPok).
  by rewrite (proj2 (range_Validate_registry extension _ _ HoX) HXok).
Qed.

(** The stages of [Validate] at which an error can come up. *)
Lemma Validate_Err_iff (o : ranges) (cfg : Config.t) (e : error) :
  Validate o cfg = Err e ↔
  (Config.Receivers cfg = ∅ ∧ e = errMissingReceivers) ∨
  (Config.Receivers cfg ≠ ∅ ∧ range_Validate receiver (range_Receivers o) = Err e) ∨
  (Config.Receivers cfg ≠ ∅ ∧ range_Validate receiver (range_Receivers o) = Nil ∧
   ((Config.Exporters cfg = ∅ ∧ e = errMissingExporters) ∨
    (Config.Exporters cfg ≠ ∅ ∧
     (range_Validate exporter (range_Exporters o) = Err e ∨
      (range_Validate exporter (range_Exporters o) = Nil ∧
       (range_Validate processor (range_Processors o) = Err e ∨
        (range_Validate processor (range_Processors o) = Nil ∧
         (range_Validate extension (range_Extensions o) = Err e ∨
          (range_Validate extension (range_Extensions o) = Nil ∧
           validateService o cfg = Err e))))))))).
Proof.
  unfold Validate. rewrite !size_0_bool_decide.
  repeat case_bool_decide; rewrite ?and_then_Err_iff; intuition congruence.
Qed.

Lemma validateService_Err_iff (o : ranges) (cfg : Config.t) (e : error) :
  validateService o cfg = Err e ↔
  ServiceTelemetryLogs_validate (Logs (Service.Telemetry (Config.Service cfg))) = Err e ∨
  (ServiceTelemetryLogs_validate (Logs (Service.Telemetry (Config.Service cfg))) = Nil ∧
   (range_refs (Config.Extensions cfg) UnknownExtensionReference
      (Service.Extensions (Config.Service cfg)) = Err e ∨
    (range_refs (Config.Extensions cfg) UnknownExtensionReference
       (Service.Extensions (Config.Service cfg)) = Nil ∧
     ((Service.Pipelines (Config.Service cfg) = ∅ ∧ e = errMissingServicePipelines) ∨
      (Service.Pipelines (Config.Service cfg) ≠ ∅ ∧
       range_validatePipeline cfg (range_Pipelines o) = Err e))))).
Proof.
  unfold validateService, ServiceTelemetry_validate. rewrite !size_0_bool_decide.
  repeat case_bool_decide; rewrite ?and_then_Err_iff; intuition congruence.
Qed.

Lemma validatePipeline_Err_iff (cfg : Config.t) (p : Pipeline.t) (e : error) :
  validatePipeline cfg (Some p) = Err e ↔
  (Pipeline.Receivers p = [] ∧ e = EmptyPipelineReceivers (Pipeline.Name p)) ∨
  (Pipeline.Receivers p ≠ [] ∧
   (range_refs (Config.Receivers cfg) (UnknownReceiverReference (Pipeline.Name p))
      (Pipeline.Receivers p) = Err e ∨
    (range_refs (Config.Receivers cfg) (UnknownReceiverReference (Pipeline.Name p))
       (Pipeline.Receivers p) = Nil ∧
     (range_refs (Config.Processors cfg) (UnknownProcessorReference (Pipeline.Name p))
        (Pipeline.Processors p) = Err e ∨
      (range_refs (Config.Processors cfg) (UnknownProcessorReference (Pipeline.Name p))
         (Pipeline.Processors p) = Nil ∧
       ((Pipeline.Exporters p = [] ∧ e = EmptyPipelineExporters (Pipeline.Name p)) ∨
        (Pipeline.Exporters p ≠ [] ∧
         range_refs (Config.Exporters cfg) (UnknownExporterReference (Pipeline.Name p))
           (Pipeline.Exporters p) = Err e))))))).
Proof.
  unfold validatePipeline. rewrite !length_0_bool_decide.
  repeat case_bool_decide; rewrite ?and_then_Err_iff; simpl; intuition congruence.
Qed.


Lemma range_validatePipeline_Err (cfg : Config.t)
    (l : list (ComponentID * option Pipeline.t)) (e : error) :
  range_validatePipeline cfg l = Err e ↔
  ∃ pre k p post, l = pre ++ (k, Some p) :: post ∧
    Forall (λ kp, validatePipeline cfg kp.2 = Nil) pre ∧
    validatePipeline cfg (Some p) = Err e.
Proof.
  split.
  - induction l as [|[k pl] l IH]; simpl; [done|].
    rewrite and_then_Err_iff. intros [H|[Hpl H]].
    + destruct pl as [p|]; [|done]. exists [], k, p, l. by repeat split.
    + destruct (IH H) as (pre & k' & p & post & -> & Hpre & Hp).
      exists ((k, pl) :: pre), k', p, post. split; [done|]. split; [|done].
      by constructor.
  - intros (pre & k & p & post & -> & Hpre & Hp).
    rewrite range_validatePipeline_reach by done. by apply and_then_Err.
Qed.


Lemma range_Validate_Err_order_free (kind : component_kind)
    (l : list (ComponentID * option validatable)) (e : error) :
  range_Validate kind l = Err e → order_free e = false.
Proof. by intros (id & v & cause & -> & _)%range_Validate_Err. Qed.

Lemma range_validatePipeline_Err_order_free (cfg : Config.t)
    (l : list (ComponentID * option Pipeline.t)) (e : error) :
  range_validatePipeline cfg l = Err e → order_free e = false.
Proof.
  intros (pre & k & p & post & _ & _ & Hp)%range_validatePipeline_Err.
  apply validatePipeline_Err_iff in Hp.
  destruct Hp as [[_ ->]|[_ [H|[_ [H|[_ [[_ ->]|[_ H]]]]]]]]; try done;
    by apply range_refs_Err in H as (l1 & r & l2 & _ & _ & _ & ->).
Qed.

Lemma index_None_registry_ok (m : gmap string (option validatable)) (r : ComponentID) :
  registry_ok m → (index m r = None ↔ m !! r = None).
Proof.
  intros Hm. unfold index. destruct (m !! r) as [c|] eqn:Hc; simpl; [|done].
  by destruct (Hm r c Hc) as (v & -> & _).
Qed.

(** When an error that is not built inside a loop over a map is returned, in
    terms of the Config alone. *)
Lemma Validate_order_free_Err (o : ranges) (cfg : Config.t) (e : error) :
  ranges_ok cfg o → order_free e = true →
  (Validate o cfg = Err e ↔
   (Config.Receivers cfg = ∅ ∧ e = errMissingReceivers) ∨
   (Config.Receivers cfg ≠ ∅ ∧ registry_ok (Config.Receivers cfg) ∧
    Config.Exporters cfg = ∅ ∧ e = errMissingExporters) ∨
   (components_ok cfg ∧
    ((Encoding (Logs (Service.Telemetry (Config.Service cfg))) ≠ "json" ∧
      Encoding (Logs (Service.Telemetry (Config.Service cfg))) ≠ "console" ∧
      e = InvalidTelemetryEncoding (Encoding (Logs (Service.Telemetry (Config.Service cfg))))) ∨
     ((Encoding (Logs (Service.Telemetry (Config.Service cfg))) = "json" ∨
       Encoding (Logs (Service.Telemetry (Config.Service cfg))) = "console") ∧
      ((∃ l1 r l2, Service.Extensions (Config.Service cfg) = l1 ++ r :: l2 ∧
          Forall (resolves (Config.Extensions cfg)) l1 ∧
          Config.Extensions cfg !! r = None ∧ e = UnknownExtensionReference r) ∨
       (Forall (resolves (Config.Extensions cfg)) (Service.Extensions (Config.Service cfg)) ∧
        Service.Pipelines (Config.Service cfg) = ∅ ∧ e = errMissingServicePipelines)))))).
Proof.
  intros (HoR & HoE & HoP & HoX & _) Hfree.
  rewrite Validate_Err_iff, validateService_Err_iff.
  rewrite (range_Validate_registry receiver _ _ HoR).
  rewrite (range_Validate_registry exporter _ _ HoE).
  rewrite (range_Validate_registry processor _ _ HoP).
  rewrite (range_Validate_registry extension _ _ HoX).
  rewrite ServiceTelemetryLogs_validate_Err, ServiceTelemetryLogs_validate_Nil.
  rewrite range_refs_Err, range_refs_Nil.
  unfold components_ok.
  assert (∀ kind l, range_Validate kind l = Err e → False) as HnoV.
  { intros kind l H%range_Validate_Err_order_free. congruence. }
  assert (range_validatePipeline cfg (range_Pipelines o) = Err e → False) as HnoP.
  { intros H%range_validatePipeline_Err_order_free. congruence. }
  split.
  - intros [H|[[_ H]|(HR & HRok & [H|(HE & [H|(HEok & [H|(HPok & [H|(HXok & H)])])])])]];
      [by left | by destruct (HnoV _ _ H) | by right; left
      | by destruct (HnoV _ _ H) | by destruct (HnoV _ _ H) | by destruct (HnoV _ _ H) |].
    right. right. split; [done|].
    destruct H as [(-> & Hj & Hc)|(Henc & [(l1 & r & l2 & Hl & Hl1 & Hr & ->)|(Hall & [H|[_ H]])])].
    + by left.
    + right. split; [done|]. left. exists l1, r, l2.
      split; [done|]. split; [by apply Forall_index_resolves|].
      split; [by apply index_None_registry_ok | done].
    + right. split; [done|]. right. split; [by apply Forall_index_resolves | done].
    + by destruct (HnoP H).
  - intros [H|[(HR & HRok & HE & ->)|((HR & HRok & HE & HEok & HPok & HXok) & H)]];
      [by left | right; right; by eauto |].
    right. right. split; [done|]. split; [done|]. right. split; [done|]. right.
    split; [done|]. right. split; [done|]. right. split; [done|].
    destruct H as [(Hj & Hc & ->)|(Henc & [(l1 & r & l2 & Hl & Hl1 & Hr & ->)|(Hall & Hp & ->)])].
    + by left.
    + right. split; [done|]. left. exists l1, r, l2.
      split; [done|]. split; [by apply Forall_index_resolves|].
      split; [by apply index_None_registry_ok | done].
    + right. split; [done|]. right. split; [by apply Forall_index_resolves|]. by left.
Qed.

(** ** Further properties of the validator *)

(** X1. The three emptiness errors are returned exactly in these cases, under
    every iteration order: MissingReceivers when the Receivers registry is
    empty; MissingExporters when Receivers is non-empty, every receiver passes
    its own validation and Exporters is empty; MissingPipelines when every
    check before the pipelines passes and Service.Pipelines is empty. *)
Theorem emptiness_errors_exact (o : ranges) (cfg : Config.t) :
  ranges_ok cfg o →
  (Validate o cfg = Err errMissingReceivers ↔ Config.Receivers cfg = ∅) ∧
  (Validate o cfg = Err errMissingExporters ↔
     Config.Receivers cfg ≠ ∅ ∧ registry_ok (Config.Receivers cfg) ∧
     Config.Exporters cfg = ∅) ∧
  (Validate o cfg = Err errMissingServicePipelines ↔
     prelude_ok cfg ∧ Service.Pipelines (Config.Service cfg) = ∅).
Proof.
  intros Ho. rewrite !(Validate_order_free_Err o cfg) by done.
  rewrite components_prelude_ok.
  split; [|split]; (split; [intros H; decompose [and or ex] H | intros H]);
    try discriminate; intuition.
Qed.

Lemma emptiness_errors_exact_witness :
  (Validate (default_ranges (no_pipelines valid_component valid_component "json" []))
     (no_pipelines valid_component valid_component "json" []) = Err errMissingReceivers ↔
   Config.Receivers (no_pipelines valid_component valid_component "json" []) = ∅) ∧
  (Validate (default_ranges (no_pipelines valid_component valid_component "json" []))
     (no_pipelines valid_component valid_component "json" []) = Err errMissingExporters ↔
   Config.Receivers (no_pipelines valid_component valid_component "json" []) ≠ ∅ ∧
   registry_ok (Config.Receivers (no_pipelines valid_component valid_component "json" [])) ∧
   Config.Exporters (no_pipelines valid_component valid_component "json" []) = ∅) ∧
  (Validate (default_ranges (no_pipelines valid_component valid_component "json" []))
     (no_pipelines valid_component valid_component "json" []) = Err errMissingServicePipelines ↔
   prelude_ok (no_pipelines valid_component valid_component "json" []) ∧
   Service.Pipelines (Config.Service (no_pipelines valid_component valid_component "json" [])) = ∅).
Proof.
  apply (emptiness_errors_exact
           (default_ranges (no_pipelines valid_component valid_component "json" []))
           (no_pipelines valid_component valid_component "json" [])).
  repeat split; reflexivity.
Defined.

(** X2. An invalid logs encoding is reported exactly when the checks on the
    four registries pass and the Encoding is neither "json" nor "console": the
    error then carries the Encoding, whatever the service extensions and the
    pipelines are, and under every iteration order. *)
Theorem InvalidTelemetryEncoding_exact (o : ranges) (cfg : Config.t) (got : string) :
  ranges_ok cfg o →
  (Validate o cfg = Err (InvalidTelemetryEncoding got) ↔
   components_ok cfg ∧
   got = Encoding (Logs (Service.Telemetry (Config.Service cfg))) ∧
   got ≠ "json" ∧ got ≠ "console").
Proof.
  intros Ho. rewrite (Validate_order_free_Err o cfg) by done.
  split; [intros H; decompose [and or ex] H | intros (Hc & -> & Hj & Hk)];
    try discriminate.
  - match goal with H : InvalidTelemetryEncoding _ = _ |- _ => injection H as -> end.
    done.
  - right. right. split; [done|]. by left.
Qed.

Lemma InvalidTelemetryEncoding_exact_witness :
  Validate
    (default_ranges
       (Config.mk {["r1" := valid_component]} {["e1" := valid_component]} ∅ ∅
          (Service.mk (telemetry "yaml") ["x9"] ∅)))
    (Config.mk {["r1" := valid_component]} {["e1" := valid_component]} ∅ ∅
       (Service.mk (telemetry "yaml") ["x9"] ∅))
  = Err (InvalidTelemetryEncoding "yaml").
Proof.
  apply (InvalidTelemetryEncoding_exact
           (default_ranges
              (Config.mk {["r1" := valid_component]} {["e1" := valid_component]} ∅ ∅
                 (Service.mk (telemetry "yaml") ["x9"] ∅)))
           (Config.mk {["r1" := valid_component]} {["e1" := valid_component]} ∅ ∅
              (Service.mk (telemetry "yaml") ["x9"] ∅)) "yaml").
  - repeat split; reflexivity.
  - split; [|by repeat split]. unfold components_ok. simpl.
    repeat split; auto using registry_ok_singleton, registry_ok_empty;
      apply insert_non_empty.
Defined.

(** X3. An unknown service extension is reported exactly when the checks on
    the four registries pass, the logs encoding is valid, and the reported ID
    is the first one of Service.Extensions that is not a key of the Extensions
    registry, whatever the pipelines are. *)
Theorem UnknownExtensionReference_exact (o : ranges) (cfg : Config.t) (ref : ComponentID) :
  ranges_ok cfg o →
  (Validate o cfg = Err (UnknownExtensionReference ref) ↔
   components_ok cfg ∧
   (Encoding (Logs (Service.Telemetry (Config.Service cfg))) = "json" ∨
    Encoding (Logs (Service.Telemetry (Config.Service cfg))) = "console") ∧
   ∃ l1 l2, Service.Extensions (Config.Service cfg) = l1 ++ ref :: l2 ∧
     Forall (resolves (Config.Extensions cfg)) l1 ∧
     Config.Extensions cfg !! ref = None).
Proof.
  intros Ho. rewrite (Validate_order_free_Err o cfg) by done.
  split; [intros H; decompose [and or ex] H | intros (Hc & Henc & l1 & l2 & Hl & Hl1 & Hr)];
    try discriminate.
  - match goal with H : UnknownExtensionReference _ = _ |- _ => injection H as -> end.
    eauto 10.
  - match goal with H : UnknownExtensionReference _ = _ |- _ => injection H as -> end.
    eauto 10.
  - right. right. split; [done|]. right. split; [done|]. left. by exists l1, ref, l2.
Qed.

Lemma UnknownExtensionReference_exact_witness :
  Validate
    (default_ranges
       (Config.mk {["r1" := valid_component]} {["e1" := valid_component]} ∅
          {["x1" := valid_component]}
          (Service.mk (telemetry "json") ["x1"; "x2"; "x3"] ∅)))
    (Config.mk {["r1" := valid_component]} {["e1" := valid_component]} ∅
       {["x1" := valid_component]}
       (Service.mk (telemetry "json") ["x1"; "x2"; "x3"] ∅))
  = Err (UnknownExtensionReference "x2").
Proof.
  apply (UnknownExtensionReference_exact
           (default_ranges
              (Config.mk {["r1" := valid_component]} {["e1" := valid_component]} ∅
                 {["x1" := valid_component]}
                 (Service.mk (telemetry "json") ["x1"; "x2"; "x3"] ∅)))
           (Config.mk {["r1" := valid_component]} {["e1" := valid_component]} ∅
              {["x1" := valid_component]}
              (Service.mk (telemetry "json") ["x1"; "x2"; "x3"] ∅)) "x2").
  - repeat split; reflexivity.
  - split; [|split; [by left|]].
    + unfold components_ok. simpl.
      repeat split; auto using registry_ok_singleton, registry_ok_empty;
        apply insert_non_empty.
    + exists ["x1"], ["x3"]. split; [reflexivity|]. split; [|by vm_compute].
      constructor; [|constructor]. eexists. by vm_compute.
Defined.

(** X4. The errors that are not built inside a loop over a map (the three
    emptiness errors, the invalid encoding, the unknown service extension) do
    not depend on the iteration order: one call returns such an error exactly
    when every other call on the same Config returns the same error. *)
Theorem order_free_errors_deterministic (o1 o2 : ranges) (cfg : Config.t) (e : error) :
  ranges_ok cfg o1 → ranges_ok cfg o2 → order_free e = true →
  (Validate o1 cfg = Err e ↔ Validate o2 cfg = Err e).
Proof.
  intros Ho1 Ho2 He.
  by rewrite (Validate_order_free_Err o1 cfg), (Validate_order_free_Err o2 cfg).
Qed.

Lemma order_free_errors_deterministic_witness :
  Validate p1_first
    (Config.mk {["r1" := valid_component]} {["e1" := valid_component]} ∅ ∅
       (Service.mk (telemetry "yaml") []
          {["p1" := Some pipeline_empty; "p2" := Some pipeline_r2]}))
  = Err (InvalidTelemetryEncoding "yaml") ↔
  Validate p2_first
    (Config.mk {["r1" := valid_component]} {["e1" := valid_component]} ∅ ∅
       (Service.mk (telemetry "yaml") []
          {["p1" := Some pipeline_empty; "p2" := Some pipeline_r2]}))
  = Err (InvalidTelemetryEncoding "yaml").
Proof.
  apply (order_free_errors_deterministic p1_first p2_first
           (Config.mk {["r1" := valid_component]} {["e1" := valid_component]} ∅ ∅
              (Service.mk (telemetry "yaml") []
                 {["p1" := Some pipeline_empty; "p2" := Some pipeline_r2]}))
           (InvalidTelemetryEncoding "yaml")).
  - repeat split; by vm_compute.
  - repeat split; try (by vm_compute). vm_compute. apply perm_swap.
  - reflexivity.
Defined.

(** X5. Within a pipeline the five checks come in a fixed order. Once every
    check before the pipelines passes and the loop gets to a pipeline: an empty
    receivers list is reported first; with the receivers resolved, the first
    processor ID that is no key of Processors; with the processors resolved
    too, an empty exporters list; and then the first exporter ID that is no
    key of Exporters. *)
Theorem pipeline_checks_in_order (o : ranges) (cfg : Config.t) (p : Pipeline.t)
    (l1 l2 : list ComponentID) (r : ComponentID) :
  ranges_ok cfg o →
  prelude_ok cfg →
  loop_reaches o cfg p →
  (Pipeline.Receivers p = [] →
   Validate o cfg = Err (EmptyPipelineReceivers (Pipeline.Name p))) ∧
  (Pipeline.Receivers p ≠ [] →
   Forall (resolves (Config.Receivers cfg)) (Pipeline.Receivers p) →
   Pipeline.Processors p = l1 ++ r :: l2 →
   Forall (resolves (Config.Processors cfg)) l1 →
   Config.Processors cfg !! r = None →
   Validate o cfg = Err (UnknownProcessorReference (Pipeline.Name p) r)) ∧
  (Pipeline.Receivers p ≠ [] →
   Forall (resolves (Config.Receivers cfg)) (Pipeline.Receivers p) →
   Forall (resolves (Config.Processors cfg)) (Pipeline.Processors p) →
   Pipeline.Exporters p = [] →
   Validate o cfg = Err (EmptyPipelineExporters (Pipeline.Name p))) ∧
  (Pipeline.Receivers p ≠ [] →
   Forall (resolves (Config.Receivers cfg)) (Pipeline.Receivers p) →
   Forall (resolves (Config.Processors cfg)) (Pipeline.Processors p) →
   Pipeline.Exporters p = l1 ++ r :: l2 →
   Forall (resolves (Config.Exporters cfg)) l1 →
   Config.Exporters cfg !! r = None →
   Validate o cfg = Err (UnknownExporterReference (Pipeline.Name p) r)).
Proof.
  intros Ho Hpre Hreach.
  pose proof Hpre as (_ & HRok & HEok & HPok & _).
  split; [|split; [|split]].
  - intros HR. apply (Validate_reach o cfg p); [done..|].
    apply validatePipeline_Err_iff. by left.
  - intros HR HRall Hl Hl1 Hr. apply (Validate_reach o cfg p); [done..|].
    apply validatePipeline_Err_iff. right. split; [done|]. right.
    split; [by apply range_refs_Nil, Forall_index_resolves|]. left.
    rewrite Hl. apply range_refs_first; [by apply Forall_index_resolves|].
    by apply index_absent.
  - intros HR HRall HPall HE. apply (Validate_reach o cfg p); [done..|].
    apply validatePipeline_Err_iff. right. split; [done|]. right.
    split; [by apply range_refs_Nil, Forall_index_resolves|]. right.
    split; [by apply range_refs_Nil, Forall_index_resolves|]. by left.
  - intros HR HRall HPall Hl Hl1 Hr. apply (Validate_reach o cfg p); [done..|].
    apply validatePipeline_Err_iff. right. split; [done|]. right.
    split; [by apply range_refs_Nil, Forall_index_resolves|]. right.
    split; [by apply range_refs_Nil, Forall_index_resolves|]. right.
    split; [rewrite Hl; by destruct l1|].
    rewrite Hl. apply range_refs_first; [by apply Forall_index_resolves|].
    by apply index_absent.
Qed.

Lemma pipeline_checks_in_order_witness :
  Validate (default_ranges (one_pipeline (Pipeline.mk "p1" LogsDataType [] ["b9"] [])))
    (one_pipeline (Pipeline.mk "p1" LogsDataType [] ["b9"] []))
  = Err (EmptyPipelineReceivers "p1") ∧
  Validate (default_ranges (one_pipeline (Pipeline.mk "p1" LogsDataType ["r1"] ["b9"] [])))
    (one_pipeline (Pipeline.mk "p1" LogsDataType ["r1"] ["b9"] []))
  = Err (UnknownProcessorReference "p1" "b9") ∧
  Validate (default_ranges (one_pipeline (Pipeline.mk "p1" LogsDataType ["r1"] [] [])))
    (one_pipeline (Pipeline.mk "p1" LogsDataType ["r1"] [] []))
  = Err (EmptyPipelineExporters "p1") ∧
  Validate (default_ranges (one_pipeline (Pipeline.mk "p1" LogsDataType ["r1"] [] ["e1"; "e2"])))
    (one_pipeline (Pipeline.mk "p1" LogsDataType ["r1"] [] ["e1"; "e2"]))
  = Err (UnknownExporterReference "p1" "e2").
Proof.
  assert (∀ p, loop_reaches (default_ranges (one_pipeline p)) (one_pipeline p) p) as Hreach.
  { intros p. exists [], "p1", []. split; [|constructor].
    unfold default_ranges, one_pipeline. simpl. apply map_to_list_singleton. }
  assert (∀ p, ranges_ok (one_pipeline p) (default_ranges (one_pipeline p))) as Ho
    by (intros p; repeat split; reflexivity).
  assert (resolves (Config.Receivers (one_pipeline pipeline_p1)) "r1") as Hr1
    by (eexists; by vm_compute).
  assert (resolves (Config.Exporters (one_pipeline pipeline_p1)) "e1") as He1
    by (eexists; by vm_compute).
  split; [|split; [|split]].
  - apply (proj1 (pipeline_checks_in_order _ _ _ [] [] ""
             (Ho (Pipeline.mk "p1" LogsDataType [] ["b9"] []))
             (prelude_ok_one_pipeline _) (Hreach _))).
    reflexivity.
  - apply (proj1 (proj2 (pipeline_checks_in_order _ _ _ [] [] "b9"
             (Ho (Pipeline.mk "p1" LogsDataType ["r1"] ["b9"] []))
             (prelude_ok_one_pipeline _) (Hreach _)))).
    + done.
    + by constructor.
    + reflexivity.
    + constructor.
    + by vm_compute.
  - apply (proj1 (proj2 (proj2 (pipeline_checks_in_order _ _ _ [] [] ""
             (Ho (Pipeline.mk "p1" LogsDataType ["r1"] [] []))
             (prelude_ok_one_pipeline _) (Hreach _))))).
    + done.
    + by constructor.
    + constructor.
    + reflexivity.
  - apply (proj2 (proj2 (proj2 (pipeline_checks_in_order _ _ _ ["e1"] [] "e2"
             (Ho (Pipeline.mk "p1" LogsDataType ["r1"] [] ["e1"; "e2"]))
             (prelude_ok_one_pipeline _) (Hreach _))))).
    + done.
    + by constructor.
    + constructor.
    + reflexivity.
    + by constructor.
    + by vm_compute.
Defined.

(** ** Every error names a real violation *)

Lemma range_Validate_Err_registry (kind : component_kind)
    (m : gmap string (option validatable)) (l : list (ComponentID * option validatable))
    (e : error) :
  l ≡ₚ map_to_list m → range_Validate kind l = Err e →
  ∃ id v cause, e = InvalidComponentConfig kind id cause ∧
    m !! id = Some (Some v) ∧ own_Validate v = Some cause.
Proof.
  intros Hl (id & v & cause & -> & Hin & Hv)%range_Validate_Err.
  exists id, v, cause. split; [done|]. split; [|done].
  apply elem_of_map_to_list. by rewrite <- Hl.
Qed.

(** Where an error of [Validate] comes from: a check outside the loops over
    the maps, the own validation of a component, or the checks on a pipeline. *)
Lemma Validate_Err_cases (o : ranges) (cfg : Config.t) (e : error) :
  ranges_ok cfg o → Validate o cfg = Err e →
  order_free e = true ∨
  (∃ kind id v cause, e = InvalidComponentConfig kind id cause ∧
     registry_of kind cfg !! id = Some (Some v) ∧ own_Validate v = Some cause) ∨
  (components_ok cfg ∧
   ∃ k p, Service.Pipelines (Config.Service cfg) !! k = Some (Some p) ∧
     validatePipeline cfg (Some p) = Err e).
Proof.
  intros (HoR & HoE & HoP & HoX & HoL) H.
  assert (∀ kind, range_Validate kind
            match kind with
            | receiver => range_Receivers o
            | exporter => range_Exporters o
            | processor => range_Processors o
            | extension => range_Extensions o
            end = Err e →
          ∃ kind id v cause, e = InvalidComponentConfig kind id cause ∧
            registry_of kind cfg !! id = Some (Some v) ∧ own_Validate v = Some cause) as Hcomp.
  { intros kind Hk. exists kind.
    destruct kind; eapply range_Validate_Err_registry; eauto. }
  apply Validate_Err_iff in H.
  destruct H as [[_ ->]|[[_ H]|(HR & HRnil & [[_ ->]|(HE & [H|(HEnil & [H|(HPnil & [H|(HXnil & H)])])])])]].
  - by left.
  - right. left. apply (Hcomp receiver H).
  - by left.
  - right. left. apply (Hcomp exporter H).
  - right. left. apply (Hcomp processor H).
  - right. left. apply (Hcomp extension H).
  - apply (range_Validate_registry _ _ _ HoR) in HRnil.
    apply (range_Validate_registry _ _ _ HoE) in HEnil.
    apply (range_Validate_registry _ _ _ HoP) in HPnil.
    apply (range_Validate_registry _ _ _ HoX) in HXnil.
    apply validateService_Err_iff in H.
    destruct H as [H|[_ [H|[_ [[_ ->]|[_ H]]]]]].
    + apply ServiceTelemetryLogs_validate_Err in H as [-> _]. by left.
    + apply range_refs_Err in H as (? & ? & ? & _ & _ & _ & ->). by left.
    + by left.
    + right. right. split; [done|].
      apply range_validatePipeline_Err in H as (pre & k & p & post & Hl & _ & Hp).
      exists k, p. split; [|done]. apply elem_of_map_to_list.
      rewrite <- HoL, Hl. apply elem_of_app. right. apply list_elem_of_here.
Qed.

(** X6. A component error is genuine: when [Validate] returns
    InvalidComponentConfig for a kind, an ID and a cause, the registry of that
    kind holds under that ID a configuration whose own [Validate] returns that
    cause. *)
Theorem InvalidComponentConfig_sound (o : ranges) (cfg : Config.t)
    (kind : component_kind) (id : ComponentID) (cause : string) :
  ranges_ok cfg o →
  Validate o cfg = Err (InvalidComponentConfig kind id cause) →
  ∃ v, registry_of kind cfg !! id = Some (Some v) ∧ own_Validate v = Some cause.
Proof.
  intros Ho H.
  destruct (Validate_Err_cases o cfg _ Ho H)
    as [Hfree|[(kind' & id' & v & cause' & Heq & Hid & Hv)|(_ & k & p & _ & Hp)]].
  - done.
  - injection Heq as -> -> ->. eauto.
  - apply validatePipeline_Err_iff in Hp.
    destruct Hp as [[_ Hp]|[_ [Hp|[_ [Hp|[_ [[_ Hp]|[_ Hp]]]]]]]]; try done;
      by apply range_refs_Err in Hp as (? & ? & ? & _ & _ & _ & ?).
Qed.

Lemma InvalidComponentConfig_sound_witness :
  ∃ v, registry_of exporter
         (no_pipelines valid_component (invalid_component "bad") "json" []) !! "e1"
       = Some (Some v) ∧ own_Validate v = Some "bad".
Proof.
  apply (InvalidComponentConfig_sound
           (default_ranges (no_pipelines valid_component (invalid_component "bad") "json" []))
           (no_pipelines valid_component (invalid_component "bad") "json" [])
           exporter "e1" "bad").
  - repeat split; reflexivity.
  - by vm_compute.
Defined.

(** X7. A pipeline error is genuine: when [Validate] returns one of the five
    pipeline errors, the pipelines map holds a pipeline of the reported Name
    with that defect: an empty receivers or exporters list, or the reported ID
    in its receivers, processors or exporters list while the ID is no key of
    the matching registry. *)
Theorem pipeline_errors_sound (o : ranges) (cfg : Config.t) (name : string)
    (ref : ComponentID) :
  ranges_ok cfg o →
  (Validate o cfg = Err (EmptyPipelineReceivers name) →
   ∃ k p, Service.Pipelines (Config.Service cfg) !! k = Some (Some p) ∧
     Pipeline.Name p = name ∧ Pipeline.Receivers p = []) ∧
  (Validate o cfg = Err (UnknownReceiverReference name ref) →
   ∃ k p, Service.Pipelines (Config.Service cfg) !! k = Some (Some p) ∧
     Pipeline.Name p = name ∧ ref ∈ Pipeline.Receivers p ∧
     Config.Receivers cfg !! ref = None) ∧
  (Validate o cfg = Err (UnknownProcessorReference name ref) →
   ∃ k p, Service.Pipelines (Config.Service cfg) !! k = Some (Some p) ∧
     Pipeline.Name p = name ∧ ref ∈ Pipeline.Processors p ∧
     Config.Processors cfg !! ref = None) ∧
  (Validate o cfg = Err (EmptyPipelineExporters name) →
   ∃ k p, Service.Pipelines (Config.Service cfg) !! k = Some (Some p) ∧
     Pipeline.Name p = name ∧ Pipeline.Exporters p = []) ∧
  (Validate o cfg = Err (UnknownExporterReference name ref) →
   ∃ k p, Service.Pipelines (Config.Service cfg) !! k = Some (Some p) ∧
     Pipeline.Name p = name ∧ ref ∈ Pipeline.Exporters p ∧
     Config.Exporters cfg !! ref = None).
Proof.
  intros Ho.
  assert (∀ e, Validate o cfg = Err e → order_free e = false →
            (∀ kind id cause, e ≠ InvalidComponentConfig kind id cause) →
            components_ok cfg ∧
            ∃ k p, Service.Pipelines (Config.Service cfg) !! k = Some (Some p) ∧
              validatePipeline cfg (Some p) = Err e) as Hcase.
  { intros e H Hfree Hicc.
    destruct (Validate_Err_cases o cfg e Ho H) as [?|[(? & ? & ? & ? & ? & _)|?]];
      [congruence | by edestruct Hicc | done]. }
  repeat split; intros H;
    destruct (Hcase _ H eq_refl) as ((_ & HRok & _ & HEok & HPok & _) & k & p & Hk & Hp);
    try done; exists k, p; (split; [done|]);
    apply validatePipeline_Err_iff in Hp;
    destruct Hp as [[Hnil Heq]|[_ [Hp|[_ [Hp|[_ [[Hnil Heq]|[_ Hp]]]]]]]];
    try (apply range_refs_Err in Hp as (l1 & r & l2 & Hl & _ & Hr & Heq));
    try discriminate.
  - by injection Heq as ->.
  - injection Heq as -> ->. rewrite Hl. split; [done|].
    split; [|by apply index_None_registry_ok].
    apply elem_of_app. right. apply list_elem_of_here.
  - injection Heq as -> ->. rewrite Hl. split; [done|].
    split; [|by apply index_None_registry_ok].
    apply elem_of_app. right. apply list_elem_of_here.
  - by injection Heq as ->.
  - injection Heq as -> ->. rewrite Hl. split; [done|].
    split; [|by apply index_None_registry_ok].
    apply elem_of_app. right. apply list_elem_of_here.
Qed.

Lemma pipeline_errors_sound_witness :
  ∃ k p, Service.Pipelines (Config.Service two_pipelines) !! k = Some (Some p) ∧
    Pipeline.Name p = "p2" ∧ "r2" ∈ Pipeline.Receivers p ∧
    Config.Receivers two_pipelines !! "r2" = None.
Proof.
  apply (proj1 (proj2 (pipeline_errors_sound p2_first two_pipelines "p2" "r2"
    ltac:(repeat split; try (by vm_compute); vm_compute; apply perm_swap)))).
  by vm_compute.
Defined.

(** ** A single pipeline at fault *)

Lemma range_Pipelines_reach (o : ranges) (cfg : Config.t) (k : ComponentID)
    (p : Pipeline.t) :
  ranges_ok cfg o →
  Service.Pipelines (Config.Service cfg) !! k = Some (Some p) →
  (∀ k' q, k' ≠ k → Service.Pipelines (Config.Service cfg) !! k' = Some q →
     validatePipeline cfg q = Nil) →
  loop_reaches o cfg p.
Proof.
  intros (_ & _ & _ & _ & Ho) Hk Hothers.
  assert ((k, Some p) ∈ range_Pipelines o) as Hin
    by (rewrite Ho; by apply elem_of_map_to_list).
  apply list_elem_of_split in Hin as (pre & post & Hl).
  exists pre, k, post. split; [done|].
  assert (NoDup (range_Pipelines o).*1) as Hnodup
    by (rewrite Ho; apply NoDup_fst_map_to_list).
  rewrite Hl, fmap_app, fmap_cons in Hnodup. simpl in Hnodup.
  apply NoDup_app in Hnodup as (_ & Hdisj & _).
  apply Forall_forall. intros [k' q] Hq. simpl.
  apply (Hothers k').
  - intros ->. apply (Hdisj k).
    + apply list_elem_of_fmap. by exists (k, q).
    + apply list_elem_of_here.
  - apply elem_of_map_to_list. rewrite <- Ho, Hl. apply elem_of_app. by left.
Qed.

(** X8. When every check before the pipelines passes and exactly one pipeline
    fails a check of the loop body, [Validate] returns the error of that
    pipeline under every iteration order. *)
Theorem single_failing_pipeline (o : ranges) (cfg : Config.t) (k : ComponentID)
    (p : Pipeline.t) (e : error) :
  ranges_ok cfg o →
  prelude_ok cfg →
  Service.Pipelines (Config.Service cfg) !! k = Some (Some p) →
  validatePipeline cfg (Some p) = Err e →
  (∀ k' q, k' ≠ k → Service.Pipelines (Config.Service cfg) !! k' = Some q →
     validatePipeline cfg q = Nil) →
  Validate o cfg = Err e.
Proof.
  intros Ho Hpre Hk He Hothers.
  apply (Validate_reach o cfg p); [done..| |done].
  by apply (range_Pipelines_reach o cfg k).
Qed.

Lemma single_failing_pipeline_witness :
  Validate failing_last one_of_two_fails = Err (UnknownReceiverReference "p2" "r2") ∧
  Validate failing_first one_of_two_fails = Err (UnknownReceiverReference "p2" "r2").
Proof.
  assert (prelude_ok one_of_two_fails) as Hpre.
  { unfold prelude_ok, one_of_two_fails. simpl.
    repeat split; auto using registry_ok_singleton, registry_ok_empty;
      apply insert_non_empty. }
  assert (∀ k' q, k' ≠ "p2" →
            Service.Pipelines (Config.Service one_of_two_fails) !! k' = Some q →
            validatePipeline one_of_two_fails q = Nil) as Hothers.
  { intros k' q Hne. unfold one_of_two_fails. simpl.
    rewrite lookup_insert_Some. intros [[_ <-]|[_ Hq]]; [by vm_compute|].
    apply lookup_singleton_Some in Hq as [Heq _]. congruence. }
  split.
  - apply (single_failing_pipeline failing_last one_of_two_fails "p2" pipeline_r2);
      [repeat split; by vm_compute | done | by vm_compute | by vm_compute | done].
  - apply (single_failing_pipeline failing_first one_of_two_fails "p2" pipeline_r2);
      [repeat split; try (by vm_compute); vm_compute; apply perm_swap
      | done | by vm_compute | by vm_compute | done].
Defined.

(** ** Panics *)

Lemma range_Validate_Panic_registry (kind : component_kind)
    (m : gmap string (option validatable)) (l : list (ComponentID * option validatable)) :
  l ≡ₚ map_to_list m → range_Validate kind l = Panic → ∃ id, m !! id = Some None.
Proof.
  intros Hl [id Hin]%range_Validate_Panic. exists id.
  apply elem_of_map_to_list. by rewrite <- Hl.
Qed.




(** ** The component checks, kind by kind *)

Lemma range_Validate_failing (kind : component_kind)
    (m : gmap string (option validatable)) (l : list (ComponentID * option validatable)) :
  l ≡ₚ map_to_list m →
  (∀ id, m !! id ≠ Some None) →
  some_component_fails m →
  ∃ id cause, range_Validate kind l = Err (InvalidComponentConfig kind id cause).
Proof.
  intros Hl Hnonil (id & v & cause & Hid & Hv).
  destruct (range_Validate_cases kind l) as [H|[H|H]]; [| |done].
  - apply (range_Validate_registry kind m l Hl) in H.
    destruct (H id _ Hid) as (v' & [= <-] & Hv'). congruence.
  - apply (range_Validate_Panic_registry kind m l Hl) in H as [id' Hid'].
    by destruct (Hnonil id').
Qed.

(** X10. The component checks go kind by kind: receivers, exporters,
    processors, extensions. On registries without nil values, a receiver whose
    own [Validate] fails makes [Validate] return InvalidComponentConfig for a
    receiver; with the receivers passing and an exporter present, a failing
    exporter makes it return the error for an exporter; then likewise for a
    processor, and then for an extension. *)
Theorem component_errors_by_kind (o : ranges) (cfg : Config.t) :
  ranges_ok cfg o →
  Config.Receivers cfg ≠ ∅ →
  (∀ kind id, registry_of kind cfg !! id ≠ Some None) →
  (some_component_fails (Config.Receivers cfg) →
   ∃ id cause, Validate o cfg = Err (InvalidComponentConfig receiver id cause)) ∧
  (registry_ok (Config.Receivers cfg) → Config.Exporters cfg ≠ ∅ →
   some_component_fails (Config.Exporters cfg) →
   ∃ id cause, Validate o cfg = Err (InvalidComponentConfig exporter id cause)) ∧
  (registry_ok (Config.Receivers cfg) → Config.Exporters cfg ≠ ∅ →
   registry_ok (Config.Exporters cfg) →
   some_component_fails (Config.Processors cfg) →
   ∃ id cause, Validate o cfg = Err (InvalidComponentConfig processor id cause)) ∧
  (registry_ok (Config.Receivers cfg) → Config.Exporters cfg ≠ ∅ →
   registry_ok (Config.Exporters cfg) → registry_ok (Config.Processors cfg) →
   some_component_fails (Config.Extensions cfg) →
   ∃ id cause, Validate o cfg = Err (InvalidComponentConfig extension id cause)).
Proof.
  intros (HoR & HoE & HoP & HoX & _) HR Hnonil. unfold Validate.
  rewrite !size_0_bool_decide, (bool_decide_eq_false_2 _ HR).
  split; [|split; [|split]].
  - intros Hfail.
    destruct (range_Validate_failing receiver _ _ HoR (Hnonil receiver) Hfail)
      as (id & cause & ->). by exists id, cause.
  - intros HRok HE Hfail.
    rewrite (proj2 (range_Validate_registry receiver _ _ HoR) HRok).
    rewrite (bool_decide_eq_false_2 _ HE). simpl.
    destruct (range_Validate_failing exporter _ _ HoE (Hnonil exporter) Hfail)
      as (id & cause & ->). by exists id, cause.
  - intros HRok HE HEok Hfail.
    rewrite (proj2 (range_Validate_registry receiver _ _ HoR) HRok).
    rewrite (bool_decide_eq_false_2 _ HE). simpl.
    rewrite (proj2 (range_Validate_registry exporter _ _ HoE) HEok). simpl.
    destruct (range_Validate_failing processor _ _ HoP (Hnonil processor) Hfail)
      as (id & cause & ->). by exists id, cause.
  - intros HRok HE HEok HPok Hfail.
    rewrite (proj2 (range_Validate_registry receiver _ _ HoR) HRok).
    rewrite (bool_decide_eq_false_2 _ HE). simpl.
    rewrite (proj2 (range_Validate_registry exporter _ _ HoE) HEok). simpl.
    rewrite (proj2 (range_Validate_registry processor _ _ HoP) HPok). simpl.
    destruct (range_Validate_failing extension _ _ HoX (Hnonil extension) Hfail)
      as (id & cause & ->). by exists id, cause.
Qed.


Lemma component_errors_by_kind_witness :
  ∃ id cause,
    Validate
      (default_ranges (no_pipelines (invalid_component "r") (invalid_component "e") "json" []))
      (no_pipelines (invalid_component "r") (invalid_component "e") "json" [])
    = Err (InvalidComponentConfig receiver id cause).
Proof.
  apply (proj1 (component_errors_by_kind
    (default_ranges (no_pipelines (invalid_component "r") (invalid_component "e") "json" []))
    (no_pipelines (invalid_component "r") (invalid_component "e") "json" [])
    ltac:(repeat split; reflexivity)
    ltac:(apply insert_non_empty)
    ltac:(intros [] id; simpl; rewrite ?lookup_empty; try done;
          intros [_ H]%lookup_singleton_Some; discriminate))).
  exists "r1", {| own_Validate := Some "r" |}, "r". by vm_compute.
Defined.

(** ** Components that no pipeline uses *)

Lemma registry_ok_insert (m : gmap string (option validatable)) (id : ComponentID)
    (c : option validatable) :
  registry_ok m → component_ok c → registry_ok (<[id := c]> m).
Proof.
  intros Hm Hc id' c'. rewrite lookup_insert_Some. intros [[_ <-]|[_ H]]; eauto.
Qed.

Lemma resolves_insert (m : gmap string (option validatable)) (id : ComponentID)
    (c : option validatable) (refs : list ComponentID) :
  Forall (resolves m) refs → Forall (resolves (<[id := c]> m)) refs.
Proof.
  intros H. eapply Forall_impl; [exact H|]. intros r Hr. unfold resolves.
  rewrite lookup_insert_is_Some. destruct (decide (id = r)); auto.
Qed.

Lemma pipeline_ok_add_component (kind : component_kind) (id : ComponentID)
    (c : option validatable) (cfg : Config.t) (pipeline : option Pipeline.t) :
  pipeline_ok cfg pipeline → pipeline_ok (add_component kind id c cfg) pipeline.
Proof.
  intros (p & -> & HR1 & HR2 & HP & HE1 & HE2). exists p.
  destruct kind; simpl; repeat split; auto using resolves_insert.
Qed.

Lemma valid_config_add_component (kind : component_kind) (id : ComponentID)
    (c : option validatable) (cfg : Config.t) :
  valid_config cfg → component_ok c → valid_config (add_component kind id c cfg).
Proof.
  intros ((HR & HRok & HEok & HPok & HXok & HE & Henc & Hext) & Hne & Hall) Hc.
  split; [|split].
  - destruct kind; unfold prelude_ok; simpl;
      repeat split; auto using registry_ok_insert, resolves_insert;
      apply insert_non_empty.
  - by destruct kind.
  - intros k pipeline Hk. apply pipeline_ok_add_component, (Hall k). by destruct kind.
Qed.

(** X11. A component that nothing refers to is no cause of failure: a Config
    that passes [Validate] still passes after a configuration that passes its
    own validation is put into any of the four registries, under a new key or
    in the place of an existing one. *)
Theorem unused_component_accepted (o o' : ranges) (cfg : Config.t)
    (kind : component_kind) (id : ComponentID) (c : option validatable) :
  ranges_ok cfg o →
  Validate o cfg = Nil →
  component_ok c →
  ranges_ok (add_component kind id c cfg) o' →
  Validate o' (add_component kind id c cfg) = Nil.
Proof.
  intros Ho H Hc Ho'. apply valid_Validate_Nil; [done|].
  apply valid_config_add_component; [|done]. by apply (Validate_Nil_valid o).
Qed.

Lemma unused_component_accepted_witness :
  Validate
    (default_ranges
       (add_component processor "unused" valid_component
          (scenario_A valid_component valid_component (telemetry "json"))))
    (add_component processor "unused" valid_component
       (scenario_A valid_component valid_component (telemetry "json")))
  = Nil.
Proof.
  apply (unused_component_accepted
           (default_ranges (scenario_A valid_component valid_component (telemetry "json")))
           (default_ranges
              (add_component processor "unused" valid_component
                 (scenario_A valid_component valid_component (telemetry "json"))))
           (scenario_A valid_component valid_component (telemetry "json"))
           processor "unused" valid_component).
  - repeat split; reflexivity.
  - by vm_compute.
  - eexists. split; reflexivity.
  - repeat split; reflexivity.
Defined.

(** ** Reference lists as sets *)

(** X12. Whether [Validate] succeeds depends on a reference list only through
    the set of its IDs: replacing Service.Extensions, or the receivers,
    processors or exporters list of a pipeline, by any list with the same
    elements (a reordering, or the list with duplicates added or removed)
    leaves the success verdict unchanged. *)
Theorem reference_list_as_set (f : list ComponentID → list ComponentID) (w : ref_list)
    (o : ranges) (cfg : Config.t) :
  (∀ l x, x ∈ f l ↔ x ∈ l) →
  (ranges_ok cfg o → ranges_ok (edit_refs f w cfg) (edit_ranges f w o)) ∧
  (Validate (edit_ranges f w o) (edit_refs f w cfg) = Nil ↔ Validate o cfg = Nil).
Proof.
  intros Hf. split; [apply ranges_ok_edit|].
  apply Validate_edit_Nil.
  - intros l. split.
    + intros Hnil. destruct l as [|x l]; [done|].
      assert (x ∈ f (x :: l)) as Hx by (apply Hf, list_elem_of_here).
      rewrite Hnil in Hx. by apply elem_of_nil in Hx.
    + intros ->. destruct (f []) as [|x l] eqn:Hnil; [done|].
      assert (x ∈ []) as Hx by (apply Hf; rewrite Hnil; apply list_elem_of_here).
      by apply elem_of_nil in Hx.
  - intros m unknown l. rewrite !range_refs_Nil, !Forall_forall.
    split; intros H x Hx; apply H; by apply Hf.
Qed.

Lemma reference_list_as_set_witness :
  Pipeline.Exporters (edit_pipeline reverse (PipelineExporters "p1")
    (Pipeline.mk "p1" LogsDataType ["r1"] [] ["zz"; "e1"])) = ["e1"; "zz"] ∧
  (Validate
     (edit_ranges reverse (PipelineExporters "p1")
        (default_ranges (one_pipeline (Pipeline.mk "p1" LogsDataType ["r1"] [] ["zz"; "e1"]))))
     (edit_refs reverse (PipelineExporters "p1")
        (one_pipeline (Pipeline.mk "p1" LogsDataType ["r1"] [] ["zz"; "e1"]))) = Nil ↔
   Validate
     (default_ranges (one_pipeline (Pipeline.mk "p1" LogsDataType ["r1"] [] ["zz"; "e1"])))
     (one_pipeline (Pipeline.mk "p1" LogsDataType ["r1"] [] ["zz"; "e1"])) = Nil).
Proof.
  split; [reflexivity|].
  apply (reference_list_as_set reverse (PipelineExporters "p1")
           (default_ranges (one_pipeline (Pipeline.mk "p1" LogsDataType ["r1"] [] ["zz"; "e1"])))
           (one_pipeline (Pipeline.mk "p1" LogsDataType ["r1"] [] ["zz"; "e1"]))).
  intros l x. apply elem_of_reverse.
Defined.

(** ** Fields the validator does not read *)

Lemma validatePipeline_retype (level : Z) (development : bool) (ty : DataType → DataType)
    (cfg : Config.t) (pipeline : option Pipeline.t) :
  validatePipeline (with_unchecked_fields level development ty cfg)
    (option_map (retype ty) pipeline)
  = validatePipeline cfg pipeline.
Proof. by destruct pipeline. Qed.

Lemma range_validatePipeline_retype (level : Z) (development : bool)
    (ty : DataType → DataType) (cfg : Config.t)
    (l : list (ComponentID * option Pipeline.t)) :
  range_validatePipeline (with_unchecked_fields level development ty cfg)
    (prod_map id (option_map (retype ty)) <$> l)
  = range_validatePipeline cfg l.
Proof.
  induction l as [|[k pl] l IH]; [done|].
  rewrite fmap_cons. simpl. by rewrite validatePipeline_retype, IH.
Qed.

(** X13. [Validate] reads neither the logs Level, nor the Development flag,
    nor the InputType of a pipeline: with these replaced by any other values,
    an InputType other than traces, metrics and logs included, the result is
    the same, under the same iteration order. *)
Theorem unchecked_fields_ignored (level : Z) (development : bool)
    (ty : DataType → DataType) (o : ranges) (cfg : Config.t) :
  (ranges_ok cfg o →
   ranges_ok (with_unchecked_fields level development ty cfg) (retype_ranges ty o)) ∧
  Validate (retype_ranges ty o) (with_unchecked_fields level development ty cfg)
  = Validate o cfg.
Proof.
  split.
  - intros (HR & HE & HP & HX & HL). repeat split; try done.
    unfold with_unchecked_fields, retype_ranges. simpl.
    by rewrite map_to_list_fmap, HL.
  - unfold Validate, validateService. rewrite !size_0_bool_decide.
    change (range_Pipelines (retype_ranges ty o))
      with (prod_map id (option_map (retype ty)) <$> range_Pipelines o).
    rewrite range_validatePipeline_retype.
    assert (bool_decide
              (Service.Pipelines (Config.Service
                 (with_unchecked_fields level development ty cfg)) = ∅)
            = bool_decide (Service.Pipelines (Config.Service cfg) = ∅)) as ->
      by (apply bool_decide_ext; simpl; apply fmap_empty_iff).
    done.
Qed.

Lemma unchecked_fields_ignored_witness :
  Validate
    (retype_ranges (λ _, "bogus")
       (default_ranges (scenario_A valid_component valid_component (telemetry "json"))))
    (with_unchecked_fields 99 true (λ _, "bogus")
       (scenario_A valid_component valid_component (telemetry "json")))
  = Validate (default_ranges (scenario_A valid_component valid_component (telemetry "json")))
      (scenario_A valid_component valid_component (telemetry "json")).
Proof.
  exact (proj2 (unchecked_fields_ignored 99 true (λ _, "bogus")
    (default_ranges (scenario_A valid_component valid_component (telemetry "json")))
    (scenario_A valid_component valid_component (telemetry "json")))).
Defined.
